(** * SLED recording pipeline: a shallow embedding and its properties

    Embedded sources:
    - [visualize_recording.py]  ([viz_events] and the replay loop of [main]);
    - [generate_sequence.py]    (the session driver [main]);
    - [ego_vehicle.py], [ai_vehicle.py], [ai_pedestrian.py]
      (sensor queues, blueprints, registries, spawning and destruction);
    - [generate_dataset.py]     (the batch driver [main]).

    Conventions.  A Python [float] is known by its exact value, a rational
    number ([Q]); the options read from the command line are finite
    numbers.  The product of two floats is rounded to the nearest double, as
    Python rounds it, and is infinite beyond the range of the doubles
    ([fmul]); [int()] of an infinite float raises; [//] and [<=] are taken
    exactly.  A Python [list] is a [list]; [l.append(x)] is [l ++ [x]],
    [l.pop(0)] is [tl l].  Exceptions are values of [exn]; code that may
    raise returns [exn + A], and the calls made on external collaborators
    before a raise are kept in a trace.  What Python and numpy raise on the
    data at hand (an index out of range, a division by zero, an [int()] of
    an infinite float) is embedded; [world.tick()], the spawning calls and
    the file system raise as their oracles say; the calls into the display
    libraries ([cv2], [matplotlib]) and the calls on a spawned actor or
    walker controller ([destroy()], [start()], [go_to_location()],
    [stop()]) are taken to return. *)

From Stdlib Require Import List ZArith QArith Qround Qabs Lia Bool Arith Permutation.
From Stdlib Require String Ascii DecimalString.
Import String.StringSyntax Ascii.AsciiSyntax.
Delimit Scope string_scope with string.
Delimit Scope char_scope with char.
Import ListNotations.

Local Open Scope Z_scope.

(** ** Data shared by the scripts *)

(** Simulation time stamp of a sensor reading (a double). *)
Definition simtime := Q.

(** One record of a [carla.DVSEventArray]:
    dtype [('x', uint16), ('y', uint16), ('t', int64), ('pol', bool)]. *)
Record DVSEvent := { ev_x : Z; ev_y : Z; ev_t : Z; ev_pol : bool }.

(** One BGRA pixel of a [carla.Image] (four [uint8]). *)
Record Pixel := { px_b : Z; px_g : Z; px_r : Z; px_a : Z }.

(** A pixel of a depth image after [depth_image[:, :, :3]]. *)
Record Pixel3 := { p3_b : Z; p3_g : Z; p3_r : Z }.

(** One row of a LiDAR measurement seen through [reshape(-1, 4)]:
    four [f4] values. *)
Record LidarPoint := { pt_x : Q; pt_y : Q; pt_z : Q; pt_i : Q }.

(** The exceptions that the modelled code can meet.  [Fault] stands for
    anything raised by an external collaborator (simulator, file system). *)
Inductive exn :=
| IndexError
| ZeroDivisionError
| ValueError
| OverflowError
| Fault (code : nat).

(** An entry of one of the four sequences of an archive, as built by
    [np.array([payload, timestamp], dtype=object)]: column 0 is the payload,
    column 1 the time stamp. *)
Definition stamped (P : Type) : Type := (P * simtime)%type.

(** The [.npz] archive: four named sequences. *)
Record Archive := {
  events       : list (stamped (list DVSEvent));
  depth_images : list (stamped (list Pixel3));
  lidar_clouds : list (stamped (list LidarPoint));
  rgb_images   : list (stamped (list Pixel))
}.

(** ** visualize_recording.py: [viz_events] *)

Module visualize_recording_viz.

(** Exceptions of numpy. *)
Inductive np_error := np_IndexError | np_ValueError.

(** An image: the value at a row, a column and a channel. *)
Definition image := Z -> Z -> Z -> Z.

(** [np.zeros(shape, np.uint8)] *)
Definition zeros : image := fun _ _ _ => 0.

(** An index [i] along an axis of length [n]: numpy accepts [-n <= i < n]
    and counts a negative one from the end. *)
Definition axis_index (n i : Z) : option Z :=
  if (0 <=? i) && (i <? n) then Some i
  else if (- n <=? i) && (i <? 0) then Some (i + n)
  else None.

Definition set_px (img : image) (r c ch v : Z) : image :=
  fun r' c' ch' =>
    if (r' =? r) && (c' =? c) && (ch' =? ch) then v else img r' c' ch'.

(** [events[:]['pol'] * 2] *)
Definition channel_of (e : DVSEvent) : Z := if ev_pol e then 2 else 0.

(** [dvs_img[ys, xs, channels] = 255] on an image of [h] rows and [w]
    columns: every triple is assigned, or an index is out of bounds. *)
Fixpoint assign (w h : Z) (img : image) (events : list DVSEvent)
  : option image :=
  match events with
  | [] => Some img
  | e :: es =>
      match axis_index h (ev_y e), axis_index w (ev_x e) with
      | Some r, Some c => assign w h (set_px img r c (channel_of e) 255) es
      | _, _ => None
      end
  end.

(** The image that [viz_events] shows, [w] and [h] being the two integers
    read from [args.dvs_resolution] ("WxH"). *)
Definition dvs_img (w h : Z) (events : list DVSEvent) : np_error + image :=
  if (w <? 0) || (h <? 0) then inl np_ValueError
  else match assign w h zeros events with
       | Some img => inr img
       | None => inl np_IndexError
       end.

(** The two exceptions of numpy among the exceptions of the scripts. *)
Definition to_exn (x : np_error) : exn :=
  match x with
  | np_IndexError => IndexError
  | np_ValueError => ValueError
  end.

(** An event paints the pixel at row [r], column [c], channel [ch]. *)
Definition paints (w h : Z) (e : DVSEvent) (r c ch : Z) : Prop :=
  axis_index h (ev_y e) = Some r /\ axis_index w (ev_x e) = Some c
  /\ ch = channel_of e.

(** Whether one of the events paints that pixel and channel. *)
Definition painted (w h : Z) (events : list DVSEvent) (r c ch : Z) : bool :=
  existsb (fun e =>
             match axis_index h (ev_y e), axis_index w (ev_x e) with
             | Some r', Some c' =>
                 (r =? r') && (c =? c') && (ch =? channel_of e)
             | _, _ => false
             end) events.

Definition sample_events : list DVSEvent :=
  [ {| ev_x := 3; ev_y := 1; ev_t := 10; ev_pol := true |};
    {| ev_x := 0; ev_y := 0; ev_t := 11; ev_pol := false |} ].

End visualize_recording_viz.

(** ** visualize_recording.py: the replay loop of [main] *)

Module visualize_recording.

Import visualize_recording_viz.

(** The images and clouds shown by the replay loop, in the order they are
    shown: each stands for the [cv2.imshow] that ends the [viz_...] function
    of its name.  The payloads of an archive are well formed (an image has
    its three axes and at least one pixel, a cloud has rows of four
    floats), so that the indexing done by these functions raises nothing
    but what [dvs_img] says of [viz_events]. *)
Inductive emission :=
| viz_events (e : list DVSEvent)
| viz_depth_image (d : list Pixel3)
| viz_point_cloud (c : list LidarPoint)
| viz_rgb_image (i : list Pixel).

(** The two cursors of [main]. *)
Record cursors := { lidar_index : nat; rgb_index : nat }.

(** How the loop of [main] ended. *)
Inductive status :=
| Completed               (* [range] exhausted *)
| Escaped                 (* [key == 27: break] *)
| Raised (e : exn).       (* an exception left the loop *)

(** One iteration of the loop of [main]: the display calls it made, in
    order, and the cursors when it ended. *)
Record iteration := {
  displayed : list emission;
  after     : cursors
}.

(** What a run of [main] did: its iterations (the last one is cut short when
    an exception leaves the loop), the cursors at the end, and how it
    ended. *)
Record run := {
  iterations : list iteration;
  final      : cursors;
  outcome    : status
}.

(** [[
    try:
      if seq[index, 1] <= events_with_ts[i, 1]:
        viz(seq[index, 0])
        index += 1
    except IndexError:
      pass
    ]]
    The index is never negative, so [seq[index, _]] raises [IndexError]
    exactly when [index >= len(seq)] (also for the empty, one-dimensional
    array that an empty sequence loads as). *)
Definition try_show {P : Type} (viz : P -> emission)
    (seq : list (stamped P)) (index : nat) (ref_ts : simtime)
  : list emission * nat :=
  match nth_error seq index with
  | Some (payload, ts) =>
      if Qle_bool ts ref_ts then ([viz payload], S index) else ([], index)
  | None => ([], index)
  end.

Definition stop (c : cursors) (s : status) : run :=
  {| iterations := []; final := c; outcome := s |}.

Definition then_ (it : iteration) (r : run) : run :=
  {| iterations := it :: iterations r; final := final r; outcome := outcome r |}.

(** The body of [for i in range(events_with_ts.shape[0])], iterated over the
    remaining reference entries [evs] (entry [i] first).  [W] and [H] are
    the two integers of [args.dvs_resolution]; [keys i] is what
    [cv2.waitKey(0)] returns in iteration [i].  [viz_events] builds its
    image before it shows it: when an event does not index the image (or a
    size is negative) the exception leaves the loop, no [try] being around
    the call, and nothing has been shown.  The [IndexError] of
    [depth_images_with_ts[i, 0]] leaves the loop likewise, the events
    having been shown. *)
Fixpoint replay_loop (W H : Z) (a : Archive) (keys : nat -> Z)
    (evs : list (stamped (list DVSEvent))) (i : nat) (c : cursors) : run :=
  match evs with
  | [] => stop c Completed
  | (e, ref_ts) :: evs' =>
      match dvs_img W H e with
      | inl x =>
          then_ {| displayed := []; after := c |} (stop c (Raised (to_exn x)))
      | inr _ =>
          match nth_error (depth_images a) i with
          | None =>
              then_ {| displayed := [viz_events e]; after := c |}
                (stop c (Raised IndexError))
          | Some (d, _) =>
              let '(shown_l, li) :=
                try_show viz_point_cloud (lidar_clouds a) (lidar_index c)
                  ref_ts in
              let '(shown_r, ri) :=
                try_show viz_rgb_image (rgb_images a) (rgb_index c) ref_ts in
              let c' := {| lidar_index := li; rgb_index := ri |} in
              then_ {| displayed := viz_events e :: viz_depth_image d
                                    :: shown_l ++ shown_r;
                       after := c' |}
                (if keys i =? 27 then stop c' Escaped
                 else replay_loop W H a keys evs' (S i) c')
          end
      end
  end.

Definition start : cursors := {| lidar_index := 0; rgb_index := 0 |}.

(** [main], after the archive has been loaded. *)
Definition main (W H : Z) (a : Archive) (keys : nat -> Z) : run :=
  replay_loop W H a keys (events a) 0%nat start.

(** All display calls of a run, in order. *)
Definition shown (r : run) : list emission :=
  flat_map displayed (iterations r).

(** The cursors with which iteration [j] of a run began, the run having
    begun with [c0]. *)
Definition cursors_before (c0 : cursors) (its : list iteration) (j : nat)
  : cursors :=
  match j with
  | O => c0
  | S j' => match nth_error its j' with Some it => after it | None => c0 end
  end.

(** The condition a draining loop ("while the next frame is not later than
    the reference, emit it") leaves behind for a modality: nothing at the
    cursor is still eligible. *)
Definition drained {P : Type} (seq : list (stamped P)) (index : nat)
    (ref_ts : simtime) : bool :=
  match nth_error seq index with
  | Some (_, ts) => negb (Qle_bool ts ref_ts)
  | None => true
  end.

(** Number of display calls of each kind. *)
Definition is_events (e : emission) : bool :=
  match e with viz_events _ => true | _ => false end.
Definition is_point_cloud (e : emission) : bool :=
  match e with viz_point_cloud _ => true | _ => false end.
Definition is_rgb_image (e : emission) : bool :=
  match e with viz_rgb_image _ => true | _ => false end.

Definition count (p : emission -> bool) (es : list emission) : nat :=
  length (filter p es).

(** What one guarded block of the loop may do for its modality: display the
    entry at the cursor and step over it, when there is one and it is not
    later than the reference; nothing otherwise. *)
Definition at_most_one {P : Type} (viz : P -> emission)
    (seq : list (stamped P)) (index : nat) (ref_ts : simtime)
    (es : list emission) (index' : nat) : Prop :=
  (exists p ts, nth_error seq index = Some (p, ts)
                /\ Qle_bool ts ref_ts = true
                /\ es = [viz p] /\ index' = S index)
  \/ (drained seq index ref_ts = true /\ es = [] /\ index' = index).

(** The events of a reference entry index the image of [viz_events]. *)
Definition inside (W H : Z) (e : list DVSEvent) : Prop :=
  exists img, dvs_img W H e = inr img.

(** What iteration [j] of a run does, having begun with the cursors [c0]:
    it displays reference entry [j] (events, whose image may not be built,
    then the depth image of the same index, which may be missing: either
    ends the run) and then at most one point cloud and at most one color
    image. *)
Definition iteration_shows (W H : Z) (a : Archive) (c0 : cursors) (j : nat)
    (it : iteration) : Prop :=
  exists e ref_ts,
    nth_error (events a) j = Some (e, ref_ts) /\
    match dvs_img W H e with
    | inl _ => displayed it = [] /\ after it = c0
    | inr _ =>
        match nth_error (depth_images a) j with
        | None => displayed it = [viz_events e] /\ after it = c0
        | Some (d, _) =>
            exists es_l es_r,
              displayed it = viz_events e :: viz_depth_image d :: es_l ++ es_r
              /\ at_most_one viz_point_cloud (lidar_clouds a) (lidar_index c0)
                   ref_ts es_l (lidar_index (after it))
              /\ at_most_one viz_rgb_image (rgb_images a) (rgb_index c0)
                   ref_ts es_r (rgb_index (after it))
        end
    end.

(** The per-reference drain as the specification words it: when an
    iteration ends, neither modality has an entry left at its cursor that is
    not later than the reference entry of the iteration. *)
Definition drains_all_eligible (a : Archive) (r : run) : Prop :=
  forall j it e ref_ts,
    nth_error (iterations r) j = Some it ->
    nth_error (events a) j = Some (e, ref_ts) ->
    drained (lidar_clouds a) (lidar_index (after it)) ref_ts = true
    /\ drained (rgb_images a) (rgb_index (after it)) ref_ts = true.

(** The cursor facts of iteration [j], which began with [c0]: no cursor
    goes back or leaves its sequence, and a cursor at the end of its
    sequence stays there and displays nothing. *)
Definition cursors_safe (a : Archive) (c0 : cursors) (it : iteration) : Prop :=
  (lidar_index c0 <= lidar_index (after it) <= length (lidar_clouds a))%nat
  /\ (rgb_index c0 <= rgb_index (after it) <= length (rgb_images a))%nat
  /\ ((length (lidar_clouds a) <= lidar_index c0)%nat ->
      lidar_index (after it) = lidar_index c0
      /\ count is_point_cloud (displayed it) = 0%nat)
  /\ ((length (rgb_images a) <= rgb_index c0)%nat ->
      rgb_index (after it) = rgb_index c0
      /\ count is_rgb_image (displayed it) = 0%nat).

(** The loop went through every reference entry and ended normally. *)
Definition completes (a : Archive) (r : run) : Prop :=
  outcome r = Completed
  /\ length (iterations r) = length (events a)
  /\ count is_events (shown r) = length (events a).

(** Sample archives. *)
Definition no_key : nat -> Z := fun _ => 32.
Definition esc_key : nat -> Z := fun _ => 27.

(** A depth image and a color image of one pixel. *)
Definition a_depth_image : list Pixel3 :=
  [{| p3_b := 0; p3_g := 0; p3_r := 1 |}].
Definition a_color_image : list Pixel :=
  [{| px_b := 10; px_g := 20; px_r := 30; px_a := 255 |}].

Definition cloud_one : list LidarPoint :=
  [{| pt_x := 1; pt_y := 0; pt_z := 0; pt_i := 0 |}].
Definition cloud_two : list LidarPoint :=
  [{| pt_x := 2; pt_y := 0; pt_z := 0; pt_i := 0 |}].

Definition a_two_clouds : Archive :=
  {| events := [([], 10%Q)];
     depth_images := [(a_depth_image, 10%Q)];
     lidar_clouds := [(cloud_one, 1%Q); (cloud_two, 2%Q)];
     rgb_images := [] |}.

Definition it_two_clouds : iteration :=
  {| displayed := [viz_events []; viz_depth_image a_depth_image;
                   viz_point_cloud cloud_one];
     after := {| lidar_index := 1; rgb_index := 0 |} |}.

Definition a_short_depth : Archive :=
  {| events := [([], 1%Q); ([], 2%Q)];
     depth_images := [(a_depth_image, 1%Q)];
     lidar_clouds := [];
     rgb_images := [] |}.

Definition a_no_clouds : Archive :=
  {| events := [([], 1%Q); ([], 2%Q)];
     depth_images := [(a_depth_image, 1%Q); (a_depth_image, 2%Q)];
     lidar_clouds := [];
     rgb_images := [(a_color_image, 2%Q)] |}.

(** An archive recorded with a wider event camera than the replay is told:
    its second reference entry has an event at column 700. *)
Definition a_wide_event : Archive :=
  {| events := [([], 1%Q);
                ([{| ev_x := 700; ev_y := 10; ev_t := 5; ev_pol := true |}],
                 2%Q)];
     depth_images := [(a_depth_image, 1%Q); (a_depth_image, 2%Q)];
     lidar_clouds := [];
     rgb_images := [] |}.

End visualize_recording.


(** ** Simulator objects *)

(** A [carla.Actor], known by its identifier. *)
Definition actor := nat.

(** A placement handed to [try_spawn_actor]. *)
Definition transform := nat.

(** What a sensor hands to its [listen] callback. *)
Record Measurement (P : Type) := {
  raw_data  : P;
  timestamp : simtime
}.
Arguments raw_data {P} _.
Arguments timestamp {P} _.

(** Calls on external collaborators that leave a trace: the simulator
    (actors and walker controllers) and the file system. *)
Inductive effect :=
| actor_destroy (a : actor)
| controller_start (a : actor)
| controller_go_to_location (a : actor)
| controller_stop (a : actor)
| np_savez (compressed : bool) (file : String.string) (content : Archive)
| csv_writerow (name : String.string) (nclouds : nat) (map : String.string).

(** ** generate_sequence_args.py *)

Module generate_sequence_args.

(** The options of [parse_args] that [main] reads after the set-up.  The
    four floats are finite.  With [preview] the recording loop also displays
    what it records (the calls under [if args.preview:]); these calls change
    no variable of [main] and are not embedded, so that a property which
    says that no exception is raised is stated for [preview args = false],
    the default. *)
Record Args := {
  hz               : Q;
  lidar_hz         : Q;
  lidar_is_pandora : bool;
  nvehicles        : Z;
  npedestrians     : Z;
  duration         : Q;
  discard_duration : Q;
  output_file      : String.string;
  csv_file         : String.string;
  map              : String.string;
  compressed       : bool;
  preview          : bool
}.


End generate_sequence_args.

(** ** ego_vehicle.py *)

Module ego_vehicle.

(** The fields of an [EgoVehicle] that [main] uses.  [lidar] holds the three
    sub-sensors in Pandora mode and the single sensor otherwise. *)
Record EgoVehicle := {
  vehicle          : actor;
  dvs              : actor;
  depth            : actor;
  lidar            : list actor;
  rgb              : actor;
  lidar_is_pandora : bool;
  dvs_queue        : list (Measurement (list DVSEvent));
  depth_queue      : list (Measurement (list Pixel));
  lidar_queue      : list (Measurement (list LidarPoint));
  rgb_queue        : list (Measurement (list Pixel))
}.

Definition with_queues (e : EgoVehicle)
    (qe : list (Measurement (list DVSEvent)))
    (qd : list (Measurement (list Pixel)))
    (ql : list (Measurement (list LidarPoint)))
    (qr : list (Measurement (list Pixel))) : EgoVehicle :=
  {| vehicle := vehicle e; dvs := dvs e; depth := depth e; lidar := lidar e;
     rgb := rgb e; lidar_is_pandora := lidar_is_pandora e;
     dvs_queue := qe; depth_queue := qd; lidar_queue := ql; rgb_queue := qr |}.

(** [clear_sensor_queues]. *)
Definition clear_sensor_queues (e : EgoVehicle) : EgoVehicle :=
  with_queues e [] [] [] [].

(** [destroy]: the sensors, then the vehicle.  Both branches of the Pandora
    test destroy what [lidar] holds. *)
Definition destroy (e : EgoVehicle) : list effect :=
  [actor_destroy (dvs e); actor_destroy (depth e)]
  ++ (if lidar_is_pandora e
      then map actor_destroy (lidar e)
      else map actor_destroy (lidar e))
  ++ [actor_destroy (rgb e); actor_destroy (vehicle e)].

(** The actors an ego-vehicle owns, in the order [__init__] spawns them. *)
Definition actors (e : EgoVehicle) : list actor :=
  vehicle e :: dvs e :: depth e :: lidar e ++ [rgb e].

End ego_vehicle.

(** ** ai_vehicle.py *)

Module ai_vehicle.

Record AIVehicle := { vehicle : actor }.

(** [__init__] up to the registration: [None] when [try_spawn_actor]
    returned [None] (the instance is then not appended to [instances]). *)
Definition init (spawned : option actor) : option AIVehicle :=
  match spawned with
  | None => None
  | Some a => Some {| vehicle := a |}
  end.

Definition destroy (v : AIVehicle) : list effect :=
  [actor_destroy (vehicle v)].

End ai_vehicle.

(** ** ai_pedestrian.py *)

Module ai_pedestrian.

Record AIPedestrian := { pedestrian : actor; controller : actor }.

(** [__init__]: nothing is registered when [try_spawn_actor] returned
    [None]; otherwise the walker controller is spawned ([spawn_actor], which
    raises when it fails) and the instance is registered. *)
Definition init (spawned : option actor) (spawn_controller : actor -> exn + actor)
  : exn + option AIPedestrian :=
  match spawned with
  | None => inr None
  | Some a =>
      match spawn_controller a with
      | inl e => inl e
      | inr c => inr (Some {| pedestrian := a; controller := c |})
      end
  end.

Definition start_controller (p : AIPedestrian) : list effect :=
  [controller_start (controller p); controller_go_to_location (controller p)].

Definition destroy (p : AIPedestrian) : list effect :=
  [controller_stop (controller p); actor_destroy (controller p);
   actor_destroy (pedestrian p)].

End ai_pedestrian.

(** ** generate_sequence.py *)

Module generate_sequence.

Import generate_sequence_args.

(** *** Python arithmetic used by [main] *)

(** What an operation on floats returns: a finite double, known by its
    exact value, or an infinity. *)
Inductive float :=
| finite (q : Q)
| inf.

(** [2 ** e] for an integer [e]. *)
Definition pow2 (e : Z) : Q :=
  if 0 <=? e then inject_Z (2 ^ e) else / inject_Z (2 ^ (- e)).

(** The integer [l] with [2 ** l <= |x| < 2 ** (l + 1)], for [x] other
    than 0. *)
Definition ilog2 (x : Q) : Z :=
  let l := Z.log2 (Z.abs (Qnum x)) - Z.log2 (Z.pos (Qden x)) in
  if Qle_bool (pow2 l) (Qabs x) then l else l - 1.

(** The nearest integer, the even one of two that are equally near. *)
Definition round_half_even (q : Q) : Z :=
  let f := Qfloor q in
  match (q - inject_Z f ?= 1 # 2)%Q with
  | Lt => f
  | Gt => f + 1
  | Eq => if Z.even f then f else f + 1
  end.

(** The double (IEEE 754 binary64) that a real result is rounded to, to the
    nearest with ties to even: 53 significant bits, the last of them worth
    [2 ** -1074] at least; a result that rounds to [2 ** 1024] or beyond is
    infinite. *)
Definition binary64 (x : Q) : float :=
  if Qeq_bool x 0 then finite 0
  else
    let e := Z.max (ilog2 x - 52) (- 1074) in
    let y := (inject_Z (round_half_even (x / pow2 e)) * pow2 e)%Q in
    if Qle_bool (pow2 1024) (Qabs y) then inf else finite y.

(** [a * b] on floats. *)
Definition fmul (a b : Q) : float := binary64 (a * b).

(** [int(x)] of a float: truncation toward zero, [OverflowError] for an
    infinity. *)
Definition int (x : float) : exn + Z :=
  match x with
  | finite q => inr (if Qle_bool 0 q then Qfloor q else Qceiling q)
  | inf => inl OverflowError
  end.

(** [a // b] on floats: the floor of the quotient (which Python computes
    exactly as long as it is below [2 ** 53]), [ZeroDivisionError] for a
    zero divisor. *)
Definition floordiv (a b : Q) : exn + Z :=
  if Qeq_bool b 0 then inl ZeroDivisionError else inr (Qfloor (a / b)).

(** [c % k == 0] for an [int] [c] and a float [k] of integral value: the
    remainder has the sign of the divisor, as [Z.modulo]. *)
Definition mod_is_zero (c k : Z) : exn + bool :=
  if k =? 0 then inl ZeroDivisionError else inr (c mod k =? 0).

(** [range(n)] runs [max(n, 0)] times. *)
Definition range_len (n : Z) : nat := Z.to_nat n.

Definition ticks_to_discard (args : Args) : exn + Z :=
  int (fmul (discard_duration args) (hz args)).

Definition ticks_to_record (args : Args) : exn + Z :=
  int (fmul (duration args) (hz args)).

Definition keep_lidar_every_x_idx (args : Args) : exn + Z :=
  floordiv (hz args) (lidar_hz args).

Definition lidar_subpackets_per_pcl (args : Args) : nat :=
  if lidar_is_pandora args then 3%nat else 1%nat.

(** *** The simulator as seen by the session *)

(** What the sensor callbacks append to the four queues of the ego-vehicle
    during one [world.tick()].  The images have the size their sensor was
    given, and a LiDAR measurement is a whole number of points. *)
Record Delivery := {
  to_dvs   : list (Measurement (list DVSEvent));
  to_depth : list (Measurement (list Pixel));
  to_lidar : list (Measurement (list LidarPoint));
  to_rgb   : list (Measurement (list Pixel))
}.

(** [tick k] is the [k]-th call of [world.tick()] made by [main] (call 0 is
    the one before the pedestrians start): either it raises, or the
    callbacks have run when it returns.  In the recording loop the
    traffic-light step that follows the call belongs to it.  [savez_raises]
    and [csv_raises] tell whether writing the archive, respectively opening
    the csv file and appending the row, raises. *)
Record World := {
  tick         : nat -> exn + Delivery;
  savez_raises : option exn;
  csv_raises   : option exn
}.

(** The [listen] callbacks: each is the [append] of its queue. *)
Definition deliver (d : Delivery) (e : ego_vehicle.EgoVehicle)
  : ego_vehicle.EgoVehicle :=
  ego_vehicle.with_queues e
    (ego_vehicle.dvs_queue e ++ to_dvs d)
    (ego_vehicle.depth_queue e ++ to_depth d)
    (ego_vehicle.lidar_queue e ++ to_lidar d)
    (ego_vehicle.rgb_queue e ++ to_rgb d).

(** *** The variables of the recording loop *)

(** [merged] is not a variable of [main]: it lists every [point_cloud] the
    loop has formed (with the time stamp of its first sub-packet), kept or
    not. *)
Record Recording := {
  ego                : ego_vehicle.EgoVehicle;
  events_queue       : list (stamped (list DVSEvent));
  depth_images_queue : list (stamped (list Pixel3));
  lidar_clouds_queue : list (stamped (list LidarPoint));
  rgb_images_queue   : list (stamped (list Pixel));
  current_lidar_idx  : Z;
  merged             : list (stamped (list LidarPoint))
}.

Definition start_recording (e : ego_vehicle.EgoVehicle) : Recording :=
  {| ego := e; events_queue := []; depth_images_queue := [];
     lidar_clouds_queue := []; rgb_images_queue := [];
     current_lidar_idx := 0; merged := [] |}.

(** [depth_image[:, :, :3]]. *)
Definition drop_alpha (p : Pixel) : Pixel3 :=
  {| p3_b := px_b p; p3_g := px_g p; p3_r := px_r p |}.

(** [if ego_vehicle.dvs_queue: ...] *)
Definition drain_events (s : Recording) : Recording :=
  let e := ego s in
  match ego_vehicle.dvs_queue e with
  | [] => s
  | m :: q =>
      {| ego := ego_vehicle.with_queues e q (ego_vehicle.depth_queue e)
                  (ego_vehicle.lidar_queue e) (ego_vehicle.rgb_queue e);
         events_queue := events_queue s ++ [(raw_data m, timestamp m)];
         depth_images_queue := depth_images_queue s;
         lidar_clouds_queue := lidar_clouds_queue s;
         rgb_images_queue := rgb_images_queue s;
         current_lidar_idx := current_lidar_idx s;
         merged := merged s |}
  end.

(** [if ego_vehicle.depth_queue: ...] *)
Definition drain_depth (s : Recording) : Recording :=
  let e := ego s in
  match ego_vehicle.depth_queue e with
  | [] => s
  | m :: q =>
      {| ego := ego_vehicle.with_queues e (ego_vehicle.dvs_queue e) q
                  (ego_vehicle.lidar_queue e) (ego_vehicle.rgb_queue e);
         events_queue := events_queue s;
         depth_images_queue :=
           depth_images_queue s ++ [(List.map drop_alpha (raw_data m), timestamp m)];
         lidar_clouds_queue := lidar_clouds_queue s;
         rgb_images_queue := rgb_images_queue s;
         current_lidar_idx := current_lidar_idx s;
         merged := merged s |}
  end.

(** [for _ in range(n): queue.pop(0)] *)
Definition pop_front {A : Type} (n : nat) (q : list A) : list A :=
  Nat.iter n (@tl A) q.

(** [np.concatenate(pcl_pts_arr, axis=0)] of the first [n] queue entries. *)
Definition concatenate (n : nat) (q : list (Measurement (list LidarPoint)))
  : list LidarPoint :=
  concat (List.map raw_data (firstn n q)).

(** [ego_vehicle.lidar_queue[0].timestamp] (the queue is not empty where
    this is used). *)
Definition first_timestamp (q : list (Measurement (list LidarPoint))) : simtime :=
  match q with
  | m :: _ => timestamp m
  | [] => 0%Q
  end.

(** [if len(ego_vehicle.lidar_queue) >= lidar_subpackets_per_pcl: ...]:
    merge, decide with the counter, count, pop. *)
Definition drain_lidar (args : Args) (keep : Z) (s : Recording)
  : exn + Recording :=
  let e := ego s in
  let q := ego_vehicle.lidar_queue e in
  let n := lidar_subpackets_per_pcl args in
  if (n <=? length q)%nat then
    let point_cloud := concatenate n q in
    match mod_is_zero (current_lidar_idx s) keep with
    | inl x => inl x
    | inr retain =>
        inr {| ego := ego_vehicle.with_queues e (ego_vehicle.dvs_queue e)
                        (ego_vehicle.depth_queue e) (pop_front n q)
                        (ego_vehicle.rgb_queue e);
               events_queue := events_queue s;
               depth_images_queue := depth_images_queue s;
               lidar_clouds_queue :=
                 if retain
                 then lidar_clouds_queue s ++ [(point_cloud, first_timestamp q)]
                 else lidar_clouds_queue s;
               rgb_images_queue := rgb_images_queue s;
               current_lidar_idx := current_lidar_idx s + 1;
               merged := merged s ++ [(point_cloud, first_timestamp q)] |}
    end
  else inr s.

(** [if ego_vehicle.rgb_queue: ...] *)
Definition drain_rgb (s : Recording) : Recording :=
  let e := ego s in
  match ego_vehicle.rgb_queue e with
  | [] => s
  | m :: q =>
      {| ego := ego_vehicle.with_queues e (ego_vehicle.dvs_queue e)
                  (ego_vehicle.depth_queue e) (ego_vehicle.lidar_queue e) q;
         events_queue := events_queue s;
         depth_images_queue := depth_images_queue s;
         lidar_clouds_queue := lidar_clouds_queue s;
         rgb_images_queue := rgb_images_queue s ++ [(raw_data m, timestamp m)];
         current_lidar_idx := current_lidar_idx s;
         merged := merged s |}
  end.

Definition with_ego (s : Recording) (e : ego_vehicle.EgoVehicle) : Recording :=
  {| ego := e; events_queue := events_queue s;
     depth_images_queue := depth_images_queue s;
     lidar_clouds_queue := lidar_clouds_queue s;
     rgb_images_queue := rgb_images_queue s;
     current_lidar_idx := current_lidar_idx s;
     merged := merged s |}.

(** What follows [world.tick()] in one iteration of the recording loop. *)
Definition drain (args : Args) (keep : Z) (s : Recording) : exn + Recording :=
  match drain_lidar args keep (drain_depth (drain_events s)) with
  | inl x => inl x
  | inr s' => inr (drain_rgb s')
  end.

(** One iteration of the recording loop, [k] being the number of the tick. *)
Definition record_tick (args : Args) (keep : Z) (w : World) (k : nat)
    (s : Recording) : exn + Recording :=
  match tick w k with
  | inl x => inl x
  | inr d => drain args keep (with_ego s (deliver d (ego s)))
  end.

(** [for _ in range(ticks_to_discard): world.tick()], [k] being the number
    of the next call of [world.tick()]; the loop returns this number as it
    is when it ends. *)
Fixpoint discard_loop (w : World) (n : nat) (k : nat)
    (e : ego_vehicle.EgoVehicle) : exn + (nat * ego_vehicle.EgoVehicle) :=
  match n with
  | O => inr (k, e)
  | S n' =>
      match tick w k with
      | inl x => inl x
      | inr d => discard_loop w n' (S k) (deliver d e)
      end
  end.

(** [for _ in range(ticks_to_record): ...] *)
Fixpoint record_loop (args : Args) (keep : Z) (w : World) (n : nat) (k : nat)
    (s : Recording) : exn + Recording :=
  match n with
  | O => inr s
  | S n' =>
      match record_tick args keep w k s with
      | inl x => inl x
      | inr s' => record_loop args keep w n' (S k) s'
      end
  end.

(** *** Saving *)

(** [s.split('/')[-1]] *)
Fixpoint has_slash (s : String.string) : bool :=
  match s with
  | String.EmptyString => false
  | String.String c s' => if Ascii.eqb c "/"%char then true else has_slash s'
  end.

Fixpoint last_field (s : String.string) : String.string :=
  match s with
  | String.EmptyString => String.EmptyString
  | String.String c s' =>
      if has_slash s' then last_field s'
      else if Ascii.eqb c "/"%char then s' else s
  end.

(** The keyword arguments of [np.savez] / [np.savez_compressed]. *)
Definition archive_of (s : Recording) : Archive :=
  {| events := events_queue s;
     depth_images := depth_images_queue s;
     lidar_clouds := lidar_clouds_queue s;
     rgb_images := rgb_images_queue s |}.

(** *** The session: from the tick counts to the end of [finally] *)

(** The ego-vehicle and the two class-level registries
    [AIVehicle.instances] and [AIPedestrian.instances], as the spawning
    phase left them. *)
Record Registry := {
  ego_vehicle_  : ego_vehicle.EgoVehicle;
  vehicles      : list ai_vehicle.AIVehicle;
  pedestrians   : list ai_pedestrian.AIPedestrian
}.

(** The [finally] block. *)
Definition teardown (r : Registry) : list effect :=
  ego_vehicle.destroy (ego_vehicle_ r)
  ++ flat_map ai_vehicle.destroy (vehicles r)
  ++ flat_map ai_pedestrian.destroy (pedestrians r).

(** What a session did: the traced calls in order, the exception that left
    [main] (if any), and the recording variables at the end of the recording
    loop (if it was completed). *)
Record Outcome := {
  log      : list effect;
  raised   : option exn;
  recorded : option Recording
}.

(** The [try] block, [nd] and [nr] being the two tick counts and [keep]
    the decimation factor: traced calls, exception, recording variables. *)
Definition try_block (args : Args) (nd nr keep : Z) (w : World) (r : Registry)
  : list effect * option exn * option Recording :=
  match tick w 0 with
  | inl x => ([], Some x, None)
  | inr d0 =>
      let started := flat_map ai_pedestrian.start_controller (pedestrians r) in
      match discard_loop w (range_len nd) 1 (deliver d0 (ego_vehicle_ r)) with
      | inl x => (started, Some x, None)
      | inr (k, e) =>
          let s0 := start_recording (ego_vehicle.clear_sensor_queues e) in
          match record_loop args keep w (range_len nr) k s0 with
          | inl x => (started, Some x, None)
          | inr s =>
              match savez_raises w with
              | Some x => (started, Some x, Some s)
              | None =>
                  let saved :=
                    started ++ [np_savez (compressed args) (output_file args)
                                  (archive_of s)] in
                  match csv_raises w with
                  | Some x => (saved, Some x, Some s)
                  | None =>
                      (saved ++ [csv_writerow (last_field (output_file args))
                                   (length (lidar_clouds_queue s)) (map args)],
                       None, Some s)
                  end
              end
          end
      end
  end.

(** An exception that leaves [main] before its [try] block: nothing is
    traced, the [finally] block does not run. *)
Definition failed (x : exn) : Outcome :=
  {| log := []; raised := Some x; recorded := None |}.

(** Lines 80 to 223 of [main].  The two [int()] of lines 82 and 83 and the
    floor division of line 89 are outside the [try]: when one of them
    raises, [finally] does not run. *)
Definition session (args : Args) (w : World) (r : Registry) : Outcome :=
  match ticks_to_discard args with
  | inl x => failed x
  | inr nd =>
      match ticks_to_record args with
      | inl x => failed x
      | inr nr =>
          match keep_lidar_every_x_idx args with
          | inl x => failed x
          | inr keep =>
              let '(l, x, s) := try_block args nd nr keep w r in
              {| log := l ++ teardown r; raised := x; recorded := s |}
          end
      end
  end.

Definition is_savez (f : effect) : bool :=
  match f with np_savez _ _ _ => true | _ => false end.

(** The archive a session wrote, if it wrote one. *)
Definition saved_archive (o : Outcome) : option Archive :=
  match List.find is_savez (log o) with
  | Some (np_savez _ _ a) => Some a
  | _ => None
  end.

(** *** Spawning the AI-controlled actors *)

(** The simulator as seen by the spawning loops.  The argument [k] of the
    oracles is the number of attempts already made by the loop. *)
Record Streets := {
  spawn_points     : list transform;
  choice           : nat -> nat;
  random_location  : nat -> transform;
  try_spawn_actor  : nat -> transform -> option actor;
  spawn_controller : actor -> exn + actor
}.

(** [random.choice(seq)], [r] being the random draw. *)
Definition random_choice {A : Type} (seq : list A) (r : nat) : exn + A :=
  match nth_error seq (r mod length seq)%nat with
  | Some x => inr x
  | None => inl IndexError
  end.

(** State of a [while] loop run with a bound on its iterations. *)
Inductive spawning (A : Type) :=
| Running (attempts : nat) (instances : list A)
| Finished (attempts : nat) (instances : list A)
| Aborted (x : exn) (instances : list A).
Arguments Running {A}.
Arguments Finished {A}.
Arguments Aborted {A}.

(** [while len(AIVehicle.instances) < args.nvehicles: ...], at most [fuel]
    iterations, [k] attempts having been made. *)
Fixpoint spawn_vehicles (args : Args) (w : Streets) (fuel : nat) (k : nat)
    (instances : list ai_vehicle.AIVehicle) : spawning ai_vehicle.AIVehicle :=
  if Z.of_nat (length instances) <? nvehicles args then
    match fuel with
    | O => Running k instances
    | S fuel' =>
        match random_choice (spawn_points w) (choice w k) with
        | inl x => Aborted x instances
        | inr t =>
            match ai_vehicle.init (try_spawn_actor w k t) with
            | None => spawn_vehicles args w fuel' (S k) instances
            | Some v => spawn_vehicles args w fuel' (S k) (instances ++ [v])
            end
        end
    end
  else Finished k instances.

(** [while len(AIPedestrian.instances) < args.npedestrians: ...] *)
Fixpoint spawn_pedestrians (args : Args) (w : Streets) (fuel : nat) (k : nat)
    (instances : list ai_pedestrian.AIPedestrian)
  : spawning ai_pedestrian.AIPedestrian :=
  if Z.of_nat (length instances) <? npedestrians args then
    match fuel with
    | O => Running k instances
    | S fuel' =>
        match ai_pedestrian.init (try_spawn_actor w k (random_location w k))
                (spawn_controller w) with
        | inl x => Aborted x instances
        | inr None => spawn_pedestrians args w fuel' (S k) instances
        | inr (Some p) => spawn_pedestrians args w fuel' (S k) (instances ++ [p])
        end
    end
  else Finished k instances.

(** *** Notions used to state the properties *)

(** The number of iterations of the warm-up loop and of the recording loop
    (0 when the tick count could not be computed: the loop is then not
    reached). *)
Definition discarded_ticks (args : Args) : nat :=
  match ticks_to_discard args with
  | inr n => range_len n
  | inl _ => 0%nat
  end.

Definition recorded_ticks (args : Args) : nat :=
  match ticks_to_record args with
  | inr n => range_len n
  | inl _ => 0%nat
  end.

(** The entries of [l] that a counter starting at [c] and stepping by one
    per entry keeps: those met with [c mod keep = 0]. *)
Fixpoint kept_from {A : Type} (keep c : Z) (l : list A) : list A :=
  match l with
  | [] => []
  | x :: l' =>
      if c mod keep =? 0 then x :: kept_from keep (c + 1) l'
      else kept_from keep (c + 1) l'
  end.

(** The counter of the decimator counts the clouds formed, and the clouds
    kept are those the counter selected. *)
Definition decimated (keep : Z) (s : Recording) : Prop :=
  lidar_clouds_queue s = kept_from keep 0 (merged s)
  /\ current_lidar_idx s = Z.of_nat (length (merged s)).

(** [cloud] merges the first [n] entries of the queue [q], which leaves
    [q']: the payloads concatenated in queue order, under the time stamp of
    the first entry. *)
Definition merges_front (n : nat) (q q' : list (Measurement (list LidarPoint)))
    (cloud : stamped (list LidarPoint)) : Prop :=
  exists front,
    q = front ++ q' /\ length front = n
    /\ fst cloud = concat (List.map raw_data front)
    /\ length (fst cloud)
       = list_sum (List.map (fun m => length (raw_data m)) front)
    /\ hd_error (List.map timestamp front) = Some (snd cloud).

(** The points the session holds from the LiDAR, in order: those of the
    clouds formed so far, then those still in the queue. *)
Definition lidar_points (s : Recording) : list LidarPoint :=
  concat (List.map fst (merged s))
  ++ concat (List.map raw_data (ego_vehicle.lidar_queue (ego s))).

(** The LiDAR readings delivered by the [n] ticks from tick [k] on. *)
Definition delivered_lidar (w : World) (k n : nat)
  : list (Measurement (list LidarPoint)) :=
  flat_map (fun j => match tick w j with
                     | inr d => to_lidar d
                     | inl _ => []
                     end) (seq k n).

(** [ceil(m / keep)] *)
Definition ceil_div (m keep : Z) : Z :=
  Qceiling (inject_Z m / inject_Z keep).

(** The actors destroyed by a sequence of calls, in order. *)
Definition destroyed (l : list effect) : list actor :=
  flat_map (fun f => match f with actor_destroy a => [a] | _ => [] end) l.

(** The calls that undo a spawn. *)
Definition is_teardown_call (f : effect) : bool :=
  match f with
  | actor_destroy _ | controller_stop _ => true
  | _ => false
  end.

(** Every actor of a registry, in the order the spawning phase created
    them: the ego-vehicle and its sensors, the AI vehicles, the AI
    pedestrians (each with its walker controller). *)
Definition spawned_actors (r : Registry) : list actor :=
  ego_vehicle.actors (ego_vehicle_ r)
  ++ List.map ai_vehicle.vehicle (vehicles r)
  ++ flat_map (fun p => [ai_pedestrian.pedestrian p; ai_pedestrian.controller p])
       (pedestrians r).

(** The actors in the order the [finally] block destroys them. *)
Definition teardown_order (r : Registry) : list actor :=
  (let e := ego_vehicle_ r in
   ego_vehicle.dvs e :: ego_vehicle.depth e
   :: ego_vehicle.lidar e ++ [ego_vehicle.rgb e; ego_vehicle.vehicle e])
  ++ List.map ai_vehicle.vehicle (vehicles r)
  ++ flat_map (fun p => [ai_pedestrian.controller p; ai_pedestrian.pedestrian p])
       (pedestrians r).

(** A teardown as the specification words it, "in controller-reverse
    order": the controllers are undone last-created first (the pedestrians
    from the last to the first, then the vehicles likewise, then the
    ego-vehicle). *)
Definition reverse_order_teardown (r : Registry) : list effect :=
  flat_map ai_pedestrian.destroy (rev (pedestrians r))
  ++ flat_map ai_vehicle.destroy (rev (vehicles r))
  ++ ego_vehicle.destroy (ego_vehicle_ r).

(** The index failure as the specification words it: once the archive is
    written, a failing append to the index file does not fail the session. *)
Definition index_failure_not_fatal (args : Args) (w : World) (r : Registry)
  : Prop :=
  saved_archive (session args w r) <> None ->
  csv_raises w <> None ->
  raised (session args w r) = None.

(** The stream merger as the specification words it: on a tick where the
    queue holds at least as many entries as a cloud takes, the pass over the
    queue merges the first of them into one cloud and pops them. *)
Definition merger_pops (args : Args) (keep : Z) (s : Recording) : Prop :=
  (lidar_subpackets_per_pcl args
   <= length (ego_vehicle.lidar_queue (ego s)))%nat ->
  exists s' cloud,
    drain_lidar args keep s = inr s'
    /\ merges_front (lidar_subpackets_per_pcl args)
         (ego_vehicle.lidar_queue (ego s)) (ego_vehicle.lidar_queue (ego s'))
         cloud.

(** The count of the decimator as the specification words it: a session
    that formed [m] clouds has recorded [ceil(m / keep)] of them. *)
Definition count_is_ceiling (args : Args) (w : World) (r : Registry) : Prop :=
  forall keep s,
    keep_lidar_every_x_idx args = inr keep ->
    recorded (session args w r) = Some s ->
    Z.of_nat (length (lidar_clouds_queue s))
    = ceil_div (Z.of_nat (length (merged s))) keep.

(** The warm-up of a world goes without exception: call 0 and the
    [nd] discarded ticks. *)
Definition calm_warmup (w : World) (nd : nat) : Prop :=
  forall k, (k <= nd)%nat -> exists d, tick w k = inr d.

(** Two worlds that differ at most in what the warm-up delivers. *)
Definition same_after_warmup (w w' : World) (nd : nat) : Prop :=
  (forall k, (nd < k)%nat -> tick w k = tick w' k)
  /\ savez_raises w = savez_raises w'
  /\ csv_raises w = csv_raises w'.

(** The four sensor queues are empty. *)
Definition queues_empty (e : ego_vehicle.EgoVehicle) : Prop :=
  ego_vehicle.dvs_queue e = [] /\ ego_vehicle.depth_queue e = []
  /\ ego_vehicle.lidar_queue e = [] /\ ego_vehicle.rgb_queue e = [].

(** *** Sample inputs *)

Definition a_measurement {P : Type} (p : P) (t : Q) : Measurement P :=
  {| raw_data := p; timestamp := t |}.

(** A world in which every tick delivers one reading per sensor, stamped
    with the number of the tick: no event, images of one pixel, a cloud of
    one point. *)
Definition steady_delivery (k : nat) : Delivery :=
  {| to_dvs := [a_measurement [] (inject_Z (Z.of_nat k))];
     to_depth := [a_measurement visualize_recording.a_color_image
                    (inject_Z (Z.of_nat k))];
     to_lidar := [a_measurement
                    [{| pt_x := inject_Z (Z.of_nat k); pt_y := 0; pt_z := 0;
                        pt_i := 0 |}]
                    (inject_Z (Z.of_nat k))];
     to_rgb := [a_measurement visualize_recording.a_color_image
                  (inject_Z (Z.of_nat k))] |}.

Definition steady_world : World :=
  {| tick := fun k => inr (steady_delivery k);
     savez_raises := None; csv_raises := None |}.

(** The same world with an index file that cannot be appended to. *)
Definition no_index_world : World :=
  {| tick := fun k => inr (steady_delivery k);
     savez_raises := None; csv_raises := Some (Fault 13) |}.

(** The same world, the simulator failing at tick [3]. *)
Definition failing_world : World :=
  {| tick := fun k => if (k =? 3)%nat then inl (Fault 7) else inr (steady_delivery k);
     savez_raises := None; csv_raises := None |}.

(** The same world, with other readings during the warm-up. *)
Definition noisy_warmup_world (nd : nat) : World :=
  {| tick := fun k =>
       if (k <=? nd)%nat
       then inr {| to_dvs := [a_measurement [] 0; a_measurement [] 0];
                   to_depth := []; to_lidar := (to_lidar (steady_delivery 0));
                   to_rgb := [] |}
       else inr (steady_delivery k);
     savez_raises := None; csv_raises := None |}.

Definition sample_ego : ego_vehicle.EgoVehicle :=
  {| ego_vehicle.vehicle := 1%nat; ego_vehicle.dvs := 2%nat;
     ego_vehicle.depth := 3%nat;
     ego_vehicle.lidar := [4%nat]; ego_vehicle.rgb := 5%nat;
     ego_vehicle.lidar_is_pandora := false;
     ego_vehicle.dvs_queue := []; ego_vehicle.depth_queue := [];
     ego_vehicle.lidar_queue := []; ego_vehicle.rgb_queue := [] |}.

Definition sample_registry : Registry :=
  {| ego_vehicle_ := sample_ego;
     vehicles := [ {| ai_vehicle.vehicle := 6%nat |};
                   {| ai_vehicle.vehicle := 7%nat |} ];
     pedestrians := [ {| ai_pedestrian.pedestrian := 8%nat;
                         ai_pedestrian.controller := 9%nat |} ] |}.

(** A short session: 200 Hz, 10 Hz point clouds, 2 discarded ticks, 40
    recorded ticks. *)
Definition short_args : Args :=
  {| hz := 200; lidar_hz := 10; lidar_is_pandora := false;
     nvehicles := 2; npedestrians := 1;
     duration := 1 # 5; discard_duration := 1 # 100;
     output_file := "data/out.npz"%string;
     csv_file := "data/metadata.csv"%string;
     map := "Town01"%string; compressed := true; preview := false |}.

(** The short session with the point clouds at the tick rate. *)
Definition full_rate_args : Args :=
  {| hz := 200; lidar_hz := 200; lidar_is_pandora := false;
     nvehicles := 2; npedestrians := 1;
     duration := 1 # 5; discard_duration := 1 # 100;
     output_file := "data/out.npz"%string;
     csv_file := "data/metadata.csv"%string;
     map := "Town01"%string; compressed := true; preview := false |}.

(** A point-cloud rate above the tick rate. *)
Definition fast_lidar_args : Args :=
  {| hz := 10; lidar_hz := 200; lidar_is_pandora := false;
     nvehicles := 2; npedestrians := 1;
     duration := 1; discard_duration := 1 # 5;
     output_file := "data/out.npz"%string;
     csv_file := "data/metadata.csv"%string;
     map := "Town01"%string; compressed := true; preview := false |}.

(** The short session in Pandora mode. *)
Definition pandora_args : Args :=
  {| hz := 200; lidar_hz := 10; lidar_is_pandora := true;
     nvehicles := 2; npedestrians := 1;
     duration := 1 # 5; discard_duration := 1 # 100;
     output_file := "data/out.npz"%string;
     csv_file := "data/metadata.csv"%string;
     map := "Town01"%string; compressed := true; preview := false |}.

(** Recording variables with the three sub-packets of one tick and the
    first sub-packet of the next in the point-cloud queue. *)
Definition three_packets : Recording :=
  start_recording
    (ego_vehicle.with_queues sample_ego [] []
       (to_lidar (steady_delivery 1) ++ to_lidar (steady_delivery 2)
        ++ to_lidar (steady_delivery 3) ++ to_lidar (steady_delivery 4))
       []).

(** The short session in Pandora mode (whose sensors are not given the
    point-cloud rate) asked for with a negative point-cloud rate. *)
Definition negative_rate_args : Args :=
  {| hz := 200; lidar_hz := - (10); lidar_is_pandora := true;
     nvehicles := 2; npedestrians := 1;
     duration := 1 # 5; discard_duration := 1 # 100;
     output_file := "data/out.npz"%string;
     csv_file := "data/metadata.csv"%string;
     map := "Town01"%string; compressed := true; preview := false |}.

(** One vehicle wanted. *)
Definition one_vehicle_args : Args :=
  {| hz := 200; lidar_hz := 10; lidar_is_pandora := false;
     nvehicles := 1; npedestrians := 1;
     duration := 10; discard_duration := 3;
     output_file := "data/out.npz"%string;
     csv_file := "data/metadata.csv"%string;
     map := "Town01"%string; compressed := true; preview := false |}.

(** A map with a single spawn point, on which the first five attempts
    collide and the sixth succeeds. *)
Definition sixth_time_lucky : Streets :=
  {| spawn_points := [0%nat];
     choice := fun k => k;
     random_location := fun _ => 0%nat;
     try_spawn_actor := fun k _ => if (k <? 5)%nat then None else Some (100 + k)%nat;
     spawn_controller := fun a => inr (1000 + a)%nat |}.

(** A map with a single spawn point that is always occupied. *)
Definition crowded : Streets :=
  {| spawn_points := [0%nat];
     choice := fun k => k;
     random_location := fun _ => 0%nat;
     try_spawn_actor := fun _ _ => None;
     spawn_controller := fun a => inr (1000 + a)%nat |}.

End generate_sequence.

(** ** More of generate_sequence.py: the other three modalities *)

Module recording_streams.

Import generate_sequence_args generate_sequence.

(** What the loop appends for a reading of the event camera or of the RGB
    camera: [np.array([payload, timestamp], dtype=object)]. *)
Definition stamp {P : Type} (m : Measurement P) : stamped P :=
  (raw_data m, timestamp m).

(** The same for a depth image, whose alpha channel is dropped. *)
Definition stamp_depth (m : Measurement (list Pixel)) : stamped (list Pixel3) :=
  (List.map drop_alpha (raw_data m), timestamp m).

(** What the session holds of a modality, in order: the entries recorded,
    then the readings still queued. *)
Definition events_seen (s : Recording) : list (stamped (list DVSEvent)) :=
  events_queue s ++ List.map stamp (ego_vehicle.dvs_queue (ego s)).

Definition depth_seen (s : Recording) : list (stamped (list Pixel3)) :=
  depth_images_queue s
  ++ List.map stamp_depth (ego_vehicle.depth_queue (ego s)).

Definition rgb_seen (s : Recording) : list (stamped (list Pixel)) :=
  rgb_images_queue s ++ List.map stamp (ego_vehicle.rgb_queue (ego s)).

(** The readings one sensor delivers during the [n] ticks from tick [k]
    on. *)
Definition delivered {A : Type} (f : Delivery -> list A) (w : World)
    (k n : nat) : list A :=
  flat_map (fun j => match tick w j with
                     | inr d => f d
                     | inl _ => []
                     end) (seq k n).

(** What a guarded block of the loop does with its buffer and its queue:
    the first reading of the queue, if any, goes to the end of the buffer. *)
Definition take_one {A B : Type} (f : A -> B) (buf : list B) (q : list A)
  : list B * list A :=
  match q with
  | [] => (buf, [])
  | m :: q' => (buf ++ [f m], q')
  end.

(** Time stamps in non-decreasing order. *)
Fixpoint ascending (l : list simtime) : Prop :=
  match l with
  | [] => True
  | t :: l' =>
      match l' with
      | [] => True
      | t' :: _ => (t <= t')%Q
      end /\ ascending l'
  end.

(** Every tick of a world returns. *)
Definition calm (w : World) : Prop :=
  forall k, exists d, tick w k = inr d.

(** Every tick from [k] on delivers as many event arrays as depth
    images. *)
Definition paired_from (w : World) (k : nat) : Prop :=
  forall j d, (k <= j)%nat -> tick w j = inr d ->
              length (to_dvs d) = length (to_depth d).

(** Every event that a tick from [k] on delivers indexes an image of [W]
    columns and [H] rows. *)
Definition events_fit (w : World) (k : nat) (W H : Z) : Prop :=
  forall j d m, (k <= j)%nat -> tick w j = inr d -> In m (to_dvs d) ->
                visualize_recording.inside W H (raw_data m).

(** Every one of the [n] ticks from [k] on delivers exactly three LiDAR
    readings. *)
Definition three_per_tick (w : World) (k n : nat) : Prop :=
  forall j, (k <= j < k + n)%nat ->
            exists d m1 m2 m3, tick w j = inr d /\ to_lidar d = [m1; m2; m3].

(** The cloud made of the LiDAR readings of one tick. *)
Definition cloud_of_tick (w : World) (j : nat) : stamped (list LidarPoint) :=
  match tick w j with
  | inr d => (concat (List.map raw_data (to_lidar d)), first_timestamp (to_lidar d))
  | inl _ => ([], 0%Q)
  end.

(** The steady world with a disk that cannot be written. *)
Definition no_disk_world : World :=
  {| tick := fun k => inr (steady_delivery k);
     savez_raises := Some (Fault 28); csv_raises := None |}.

(** A world in which each tick delivers the three sub-packets of a Pandora
    LiDAR. *)
Definition pandora_delivery (k : nat) : Delivery :=
  {| to_dvs := to_dvs (steady_delivery k);
     to_depth := to_depth (steady_delivery k);
     to_lidar := to_lidar (steady_delivery k) ++ to_lidar (steady_delivery k)
                 ++ to_lidar (steady_delivery k);
     to_rgb := [] |}.

Definition pandora_world : World :=
  {| tick := fun k => inr (pandora_delivery k);
     savez_raises := None; csv_raises := None |}.

(** The short session asked for with a zero point-cloud rate, and with a
    negative duration. *)
Definition zero_rate_args : Args :=
  {| hz := 200; lidar_hz := 0; lidar_is_pandora := false;
     nvehicles := 2; npedestrians := 1;
     duration := 1 # 5; discard_duration := 1 # 100;
     output_file := "data/out.npz"%string;
     csv_file := "data/metadata.csv"%string;
     map := "Town01"%string; compressed := true; preview := false |}.

Definition no_duration_args : Args :=
  {| hz := 200; lidar_hz := 10; lidar_is_pandora := false;
     nvehicles := 2; npedestrians := 1;
     duration := - (1); discard_duration := 1 # 100;
     output_file := "data/out.npz"%string;
     csv_file := "data/metadata.csv"%string;
     map := "Town01"%string; compressed := true; preview := false |}.

End recording_streams.

(** ** More of generate_sequence.py: [main] from the set-up on *)

Module generate_sequence_main.

Import generate_sequence_args generate_sequence.

(** What [main] meets before its loops: whether connecting and loading the
    map raises (lines 42 to 49), whether configuring the world, the traffic
    manager and the weather raises (lines 52 to 63), the random draw of the
    placement of the ego-vehicle, and the outcome of the constructor
    [EgoVehicle(...)] at a placement. *)
Record Setup := {
  load_raises      : option exn;
  configure_raises : option exn;
  ego_draw         : nat;
  make_ego         : transform -> exn + ego_vehicle.EgoVehicle
}.

(** [main], the two spawning loops being given [fuel] iterations each;
    [None] when a loop has not ended by then.  [1.0/args.hz] of line 51
    raises for a zero tick rate. *)
Definition main (args : Args) (setup : Setup) (st : Streets) (w : World)
    (fuel : nat) : option Outcome :=
  match load_raises setup with
  | Some x => Some (failed x)
  | None =>
      if Qeq_bool (hz args) 0 then Some (failed ZeroDivisionError)
      else
        match configure_raises setup with
        | Some x => Some (failed x)
        | None =>
            match random_choice (spawn_points st) (ego_draw setup) with
            | inl x => Some (failed x)
            | inr t =>
                match make_ego setup t with
                | inl x => Some (failed x)
                | inr e =>
                    match spawn_vehicles args st fuel 0 [] with
                    | Running _ _ => None
                    | Aborted x _ => Some (failed x)
                    | Finished k vs =>
                        match spawn_pedestrians args st fuel k [] with
                        | Running _ _ => None
                        | Aborted x _ => Some (failed x)
                        | Finished _ ps =>
                            Some (session args w
                                    {| ego_vehicle_ := e; vehicles := vs;
                                       pedestrians := ps |})
                        end
                    end
                end
            end
        end
  end.

(** A vehicle registered by the loop is an actor that [try_spawn_actor]
    returned, at a spawn point of the map, in one of the attempts from [k]
    to [k' - 1]. *)
Definition spawned_between (st : Streets) (k k' : nat)
    (v : ai_vehicle.AIVehicle) : Prop :=
  exists j t, (k <= j < k')%nat /\ In t (spawn_points st)
              /\ try_spawn_actor st j t = Some (ai_vehicle.vehicle v).

(** A pedestrian registered by the loop is a walker that [try_spawn_actor]
    returned, at the location drawn for the attempt, in one of the attempts
    from [k] to [k' - 1], with the controller that [spawn_actor] returned
    for this walker. *)
Definition walker_between (st : Streets) (k k' : nat)
    (p : ai_pedestrian.AIPedestrian) : Prop :=
  exists j, (k <= j < k')%nat
            /\ try_spawn_actor st j (random_location st j)
               = Some (ai_pedestrian.pedestrian p)
            /\ spawn_controller st (ai_pedestrian.pedestrian p)
               = inr (ai_pedestrian.controller p).

(** A set-up without incident, with the sample ego-vehicle. *)
Definition plain_setup : Setup :=
  {| load_raises := None; configure_raises := None; ego_draw := 0;
     make_ego := fun _ => inr sample_ego |}.

(** A map on which every attempt succeeds. *)
Definition open_streets : Streets :=
  {| spawn_points := [0%nat; 1%nat];
     choice := fun k => k;
     random_location := fun _ => 0%nat;
     try_spawn_actor := fun k _ => Some (100 + k)%nat;
     spawn_controller := fun a => inr (1000 + a)%nat |}.

End generate_sequence_main.

(** ** More of ego_vehicle.py: the blueprints of [__init__] *)

Module ego_vehicle_init.

Import generate_sequence_args.

(** A vehicle blueprint of the library: its identifier and its attribute
    [number_of_wheels] read as an integer. *)
Record Blueprint := {
  id               : String.string;
  number_of_wheels : Z
}.

(** [s.endswith(suffix)] for one suffix. *)
Fixpoint endswith (s suffix : String.string) : bool :=
  if String.eqb s suffix then true
  else match s with
       | String.EmptyString => false
       | String.String _ s' => endswith s' suffix
       end.

(** The suffixes that [get_random_blueprint] refuses. *)
Definition refused_suffixes : list String.string :=
  ["carlacola"; "firetruck"; "ambulance"; "sprinter"; "t2"; "t2_2021";
   "fusorosa"]%string.

(** [EgoVehicle.get_random_blueprint], [library] being the blueprints that
    [filter("vehicle")] returns and [r] the random draw. *)
Definition get_random_blueprint (library : list Blueprint) (r : nat)
  : exn + Blueprint :=
  let blueprints := filter (fun x => number_of_wheels x =? 4) library in
  let blueprints :=
    filter (fun x => negb (existsb (endswith (id x)) refused_suffixes))
      blueprints in
  generate_sequence.random_choice blueprints r.






(** Sample library and options. *)
Definition sample_library : list Blueprint :=
  [ {| id := "vehicle.carlamotors.firetruck"; number_of_wheels := 4 |};
    {| id := "vehicle.yamaha.yzf"; number_of_wheels := 2 |};
    {| id := "vehicle.audi.tt"; number_of_wheels := 4 |} ]%string.


End ego_vehicle_init.

(** ** generate_dataset.py *)

Module generate_dataset.

Record Args := {
  nb_seq    : Z;
  seeds     : String.string;
  outfolder : String.string
}.

(** What [main] can raise. *)
Inductive error :=
| ValueError                               (* a row that is not five fields *)
| IndexError_
| UnknownMap (map : String.string)         (* [Exception("Map ... ")] *)
| CalledProcessError (cmd : list String.string).

(** [[f"Town0{i}" for i in range(1, 8)] + ["Town10HD"]] *)
Definition maps : list String.string :=
  ["Town01"; "Town02"; "Town03"; "Town04"; "Town05"; "Town06"; "Town07";
   "Town10HD"]%string.

(** The machine as [main] meets it: the rows of the seeds file as
    [csv.reader] yields them; for iteration [i], the formatted date, the
    three random draws, whether a path exists, and whether the command
    launched returns 0. *)
Record Host := {
  csv_rows   : list (list String.string);
  now        : nat -> String.string;
  draw_map   : nat -> nat;
  draw_sun   : nat -> nat;
  draw_cloud : nat -> nat;
  exists_    : nat -> String.string -> bool;
  run        : nat -> list String.string -> bool
}.

(** [str(n)] of an integer. *)
Definition str (n : Z) : String.string :=
  DecimalString.NilZero.string_of_int (Z.to_int n).

(** The fields of a sequence: output name, seed, map, sun altitude,
    cloudiness. *)
Record Sequence := {
  out_name   : String.string;
  seed       : String.string;
  map        : String.string;
  sun_alt    : String.string;
  cloudiness : String.string
}.

(** [f"{outfolder}/{out_name}.npz"] and [f"{outfolder}/metadata.csv"] *)
Definition output_path (args : Args) (name : String.string) : String.string :=
  String.append (outfolder args)
    (String.append "/" (String.append name ".npz")).

Definition csv_path (args : Args) : String.string :=
  String.append (outfolder args) "/metadata.csv".

(** The argument list given to [subprocess.run]. *)
Definition command (args : Args) (q : Sequence) : list String.string :=
  ["python3"; "generate_sequence.py"; "--map"; map q; "--seed"; seed q;
   "--lidar-is-pandora"; "--sun-altitude"; sun_alt q; "--cloudiness";
   cloudiness q; "--output-file"; output_path args (out_name q);
   "--csv-file"; csv_path args; "--compressed"]%string.

(** The sequence of iteration [i]: read from row [i] of the seeds file when
    one is given, drawn otherwise. *)
Definition sequence_of (args : Args) (h : Host)
    (csv_lines : list (list String.string)) (i : nat) : error + Sequence :=
  if String.eqb (seeds args) "" then
    let seed := now h i in
    match generate_sequence.random_choice maps (draw_map h i) with
    | inl _ => inl IndexError_
    | inr map =>
        inr {| out_name := String.append map (String.append "_" seed);
               seed := seed;
               map := map;
               sun_alt := str (- 90 + Z.of_nat (draw_sun h i mod 181));
               cloudiness := str (Z.of_nat (draw_cloud h i mod 101)) |}
    end
  else
    match nth_error csv_lines i with
    | None => inl IndexError_
    | Some [out_name; seed; map; sun_alt; cloudiness] =>
        if existsb (String.eqb map) maps
        then inr {| out_name := out_name; seed := seed; map := map;
                    sun_alt := sun_alt; cloudiness := cloudiness |}
        else inl (UnknownMap map)
    | Some _ => inl ValueError
    end.

(** [for i in range(nb_seq_to_generate)], [n] iterations being left: the
    commands launched, in order, and the exception that ended the loop, if
    any. *)
Fixpoint batch (args : Args) (h : Host)
    (csv_lines : list (list String.string)) (n i : nat)
  : list (list String.string) * option error :=
  match n with
  | O => ([], None)
  | S n' =>
      match sequence_of args h csv_lines i with
      | inl x => ([], Some x)
      | inr q =>
          if exists_ h i (output_path args (out_name q))
          then batch args h csv_lines n' (S i)
          else
            let cmd := command args q in
            if run h i cmd
            then let '(l, x) := batch args h csv_lines n' (S i) in (cmd :: l, x)
            else ([cmd], Some (CalledProcessError cmd))
      end
  end.

(** [main] *)
Definition main (args : Args) (h : Host)
  : list (list String.string) * option error :=
  if String.eqb (seeds args) "" then
    batch args h [] (Z.to_nat (nb_seq args)) 0
  else
    let csv_lines :=
      filter (fun l => match l with [] => false | _ => true end) (csv_rows h) in
    batch args h csv_lines (length csv_lines) 0.

(** A command launched for the sequence of an iteration between [i] and
    [i' - 1], whose output file did not exist then. *)
Definition launched (args : Args) (h : Host)
    (csv_lines : list (list String.string)) (i i' : nat)
    (cmd : list String.string) : Prop :=
  exists j q,
    (i <= j < i')%nat
    /\ sequence_of args h csv_lines j = inr q
    /\ cmd = command args q
    /\ In (map q) maps
    /\ exists_ h j (output_path args (out_name q)) = false.

(** A command that returned 0, respectively did not, in some iteration. *)
Definition succeeded (h : Host) (cmd : list String.string) : Prop :=
  exists j, run h j cmd = true.

Definition failed_ (h : Host) (cmd : list String.string) : Prop :=
  exists j, run h j cmd = false.

(** The rows of the seeds file that [main] keeps. *)
Definition kept_rows (h : Host) : list (list String.string) :=
  filter (fun l => match l with [] => false | _ => true end) (csv_rows h).

(** The number of iterations of the loop of [main]. *)
Definition nb_seq_to_generate (args : Args) (h : Host) : nat :=
  if String.eqb (seeds args) "" then Z.to_nat (nb_seq args)
  else length (kept_rows h).

(** The [--map] and [--output-file] arguments of a command. *)
Definition map_of (cmd : list String.string) : String.string :=
  nth 3 cmd ""%string.

Definition output_of (cmd : list String.string) : String.string :=
  nth 12 cmd ""%string.

(** Sample inputs. *)
Definition seeds_args : Args :=
  {| nb_seq := 1; seeds := "seeds.csv"; outfolder := "data" |}%string.

Definition random_args : Args :=
  {| nb_seq := 3; seeds := ""; outfolder := "data" |}%string.

(** A seeds file of three rows (with an empty row between them), the last
    with a map that is not in the list; the second command fails. *)
Definition sample_host : Host :=
  {| csv_rows :=
       [ ["a"; "1"; "Town01"; "10"; "0"]; [];
         ["b"; "2"; "Town02"; "20"; "5"];
         ["c"; "3"; "Town08"; "30"; "9"] ]%string;
     now := fun _ => "20240101_000000"%string;
     draw_map := fun i => i; draw_sun := fun i => i; draw_cloud := fun i => i;
     exists_ := fun _ _ => false;
     run := fun i _ => (i =? 0)%nat |}.

(** The same machine on which every command succeeds and every file
    exists, respectively. *)
Definition obliging_host : Host :=
  {| csv_rows := csv_rows sample_host;
     now := now sample_host;
     draw_map := fun i => i; draw_sun := fun i => i; draw_cloud := fun i => i;
     exists_ := fun _ _ => false;
     run := fun _ _ => true |}.

Definition full_host : Host :=
  {| csv_rows := csv_rows sample_host;
     now := now sample_host;
     draw_map := fun i => i; draw_sun := fun i => i; draw_cloud := fun i => i;
     exists_ := fun _ _ => true;
     run := fun _ _ => true |}.

End generate_dataset.

(** * Properties *)

(** ** The replay loop of visualize_recording.py *)

Module ReplayMerger.

Import visualize_recording_viz visualize_recording.

Lemma try_show_at_most_one {P : Type} (viz : P -> emission)
    (seq : list (stamped P)) (index : nat) (ref_ts : simtime) :
  at_most_one viz seq index ref_ts
    (fst (try_show viz seq index ref_ts)) (snd (try_show viz seq index ref_ts)).
Proof.
  unfold at_most_one, try_show, drained.
  destruct (nth_error seq index) as [[p ts]|] eqn:E.
  - destruct (Qle_bool ts ref_ts) eqn:L; cbn.
    + left. exists p, ts. auto.
    + right. auto.
  - right. auto.
Qed.

Lemma try_show_bounds {P : Type} (viz : P -> emission)
    (seq : list (stamped P)) (index : nat) (ref_ts : simtime) :
  (index <= snd (try_show viz seq index ref_ts))%nat
  /\ ((index <= length seq)%nat ->
      (snd (try_show viz seq index ref_ts) <= length seq)%nat)
  /\ ((length seq <= index)%nat ->
      try_show viz seq index ref_ts = ([], index)).
Proof.
  unfold try_show.
  destruct (nth_error seq index) as [[p ts]|] eqn:E.
  - assert (index < length seq)%nat
      by (apply nth_error_Some; rewrite E; discriminate).
    destruct (Qle_bool ts ref_ts); cbn; repeat split; intros; try lia.
  - cbn. repeat split; intros; auto.
Qed.

Lemma cursors_before_cons (c : cursors) (it0 : iteration)
    (its : list iteration) (j : nat) (it : iteration) :
  nth_error its j = Some it ->
  cursors_before c (it0 :: its) (S j) = cursors_before (after it0) its j.
Proof.
  intros H. destruct j as [|j]; [reflexivity|]. cbn.
  destruct (nth_error its j) eqn:E; [reflexivity|].
  apply nth_error_None in E.
  assert (S j < length its)%nat by (apply nth_error_Some; rewrite H; discriminate).
  lia.
Qed.

(** The iterations of a run are the reference entries, in order. *)
Lemma replay_loop_iterations (W H : Z) (a : Archive) (keys : nat -> Z) :
  forall evs i c j it,
    nth_error (iterations (replay_loop W H a keys evs i c)) j = Some it ->
    exists e ref_ts,
      nth_error evs j = Some (e, ref_ts) /\
      let c0 := cursors_before c (iterations (replay_loop W H a keys evs i c)) j in
      match dvs_img W H e with
      | inl _ => displayed it = [] /\ after it = c0
      | inr _ =>
          match nth_error (depth_images a) (i + j) with
          | None => displayed it = [viz_events e] /\ after it = c0
          | Some (d, _) =>
              exists es_l es_r,
                displayed it = viz_events e :: viz_depth_image d :: es_l ++ es_r
                /\ at_most_one viz_point_cloud (lidar_clouds a) (lidar_index c0)
                     ref_ts es_l (lidar_index (after it))
                /\ at_most_one viz_rgb_image (rgb_images a) (rgb_index c0)
                     ref_ts es_r (rgb_index (after it))
          end
      end.
Proof.
  induction evs as [|[e ref_ts] evs IH]; intros i c j it Hj.
  - destruct j; discriminate.
  - cbn [replay_loop] in *.
    destruct (dvs_img W H e) as [x|img] eqn:V.
    { destruct j as [|j].
      - cbn in Hj. injection Hj as <-. exists e, ref_ts.
        split; [reflexivity|]. cbn. rewrite V. auto.
      - cbn in Hj. destruct j; discriminate. }
    destruct (nth_error (depth_images a) i) as [[d dts]|] eqn:D.
    + pose proof (try_show_at_most_one viz_point_cloud (lidar_clouds a)
                    (lidar_index c) ref_ts) as HL.
      pose proof (try_show_at_most_one viz_rgb_image (rgb_images a)
                    (rgb_index c) ref_ts) as HR.
      destruct (try_show viz_point_cloud _ _ _) as [sl li].
      destruct (try_show viz_rgb_image _ _ _) as [sr ri].
      cbn [fst snd] in HL, HR.
      destruct j as [|j].
      * cbn in Hj. injection Hj as <-. exists e, ref_ts. split; [reflexivity|].
        cbn. rewrite V, Nat.add_0_r, D. exists sl, sr. cbn. auto.
      * cbn [then_ iterations] in Hj |- *.
        destruct (keys i =? 27).
        { destruct j; discriminate. }
        cbn [nth_error] in Hj.
        destruct (IH (S i) _ j it Hj) as (e' & ts' & He & Hrest).
        exists e', ts'. split; [exact He|].
        replace (i + S j)%nat with (S i + j)%nat by lia.
        rewrite (cursors_before_cons _ _ _ _ _ Hj). exact Hrest.
    + destruct j as [|j].
      * cbn in Hj. injection Hj as <-. exists e, ref_ts. split; [reflexivity|].
        cbn. rewrite V, Nat.add_0_r, D. auto.
      * cbn in Hj. destruct j; discriminate.
Qed.

(** The cursors never go back and stay within their sequences. *)
Lemma replay_loop_cursors (W H : Z) (a : Archive) (keys : nat -> Z) :
  forall evs i c j it,
    (lidar_index c <= length (lidar_clouds a))%nat ->
    (rgb_index c <= length (rgb_images a))%nat ->
    nth_error (iterations (replay_loop W H a keys evs i c)) j = Some it ->
    let c0 := cursors_before c (iterations (replay_loop W H a keys evs i c)) j in
    (lidar_index c0 <= lidar_index (after it) <= length (lidar_clouds a))%nat
    /\ (rgb_index c0 <= rgb_index (after it) <= length (rgb_images a))%nat
    /\ ((length (lidar_clouds a) <= lidar_index c0)%nat ->
        lidar_index (after it) = lidar_index c0
        /\ count is_point_cloud (displayed it) = 0%nat)
    /\ ((length (rgb_images a) <= rgb_index c0)%nat ->
        rgb_index (after it) = rgb_index c0
        /\ count is_rgb_image (displayed it) = 0%nat).
Proof.
  induction evs as [|[e ref_ts] evs IH]; intros i c j it BL BR Hj.
  - destruct j; discriminate.
  - cbn [replay_loop] in *.
    destruct (dvs_img W H e) as [x|img] eqn:V.
    { destruct j as [|j].
      - cbn in Hj. injection Hj as <-. cbn. unfold count. cbn.
        repeat split; try lia.
      - cbn in Hj. destruct j; discriminate. }
    destruct (nth_error (depth_images a) i) as [[d dts]|] eqn:D.
    + destruct (try_show_bounds viz_point_cloud (lidar_clouds a)
                  (lidar_index c) ref_ts) as (L1 & L2 & L3).
      destruct (try_show_bounds viz_rgb_image (rgb_images a)
                  (rgb_index c) ref_ts) as (R1 & R2 & R3).
      pose proof (try_show_at_most_one viz_point_cloud (lidar_clouds a)
                    (lidar_index c) ref_ts) as AL.
      pose proof (try_show_at_most_one viz_rgb_image (rgb_images a)
                    (rgb_index c) ref_ts) as AR.
      destruct (try_show viz_point_cloud _ _ _) as [sl li].
      destruct (try_show viz_rgb_image _ _ _) as [sr ri].
      cbn [fst snd] in *.
      destruct j as [|j].
      * cbn in Hj. injection Hj as <-. cbn.
        split; [lia|]. split; [lia|]. split; intros G.
        -- specialize (L3 G). injection L3 as -> ->. split; [reflexivity|].
           unfold count. cbn.
           destruct AR as [(p & ts & _ & _ & -> & _)|(_ & -> & _)]; reflexivity.
        -- specialize (R3 G). injection R3 as -> ->. split; [reflexivity|].
           unfold count. cbn. rewrite app_nil_r.
           destruct AL as [(p & ts & _ & _ & -> & _)|(_ & -> & _)]; reflexivity.
      * cbn [then_ iterations] in Hj |- *.
        destruct (keys i =? 27).
        { destruct j; discriminate. }
        cbn [nth_error] in Hj.
        specialize (IH (S i) {| lidar_index := li; rgb_index := ri |} j it
                      (L2 BL) (R2 BR) Hj).
        rewrite (cursors_before_cons _ _ _ _ _ Hj). exact IH.
    + destruct j as [|j].
      * cbn in Hj. injection Hj as <-. cbn. unfold count. cbn.
        repeat split; try lia.
      * cbn in Hj. destruct j; discriminate.
Qed.

(** With events that index the image, a depth image for every reference
    entry and no Escape key, the loop runs over all reference entries and
    ends normally. *)
Lemma replay_loop_completes (W H : Z) (a : Archive) (keys : nat -> Z) :
  forall evs i c,
    (forall e ts, In (e, ts) evs -> inside W H e) ->
    (i + length evs <= length (depth_images a))%nat ->
    (forall k, (i <= k < i + length evs)%nat -> keys k <> 27) ->
    outcome (replay_loop W H a keys evs i c) = Completed
    /\ length (iterations (replay_loop W H a keys evs i c)) = length evs
    /\ count is_events (shown (replay_loop W H a keys evs i c)) = length evs.
Proof.
  induction evs as [|[e ref_ts] evs IH]; intros i c HI HD HK.
  - cbn. auto.
  - cbn [replay_loop length] in *.
    destruct (HI e ref_ts (or_introl eq_refl)) as (img & ->).
    destruct (nth_error (depth_images a) i) as [[d dts]|] eqn:D.
    2:{ apply nth_error_None in D. lia. }
    pose proof (try_show_at_most_one viz_point_cloud (lidar_clouds a)
                  (lidar_index c) ref_ts) as AL.
    pose proof (try_show_at_most_one viz_rgb_image (rgb_images a)
                  (rgb_index c) ref_ts) as AR.
    destruct (try_show viz_point_cloud _ _ _) as [sl li].
    destruct (try_show viz_rgb_image _ _ _) as [sr ri].
    cbn [fst snd] in *.
    destruct (keys i =? 27) eqn:K.
    { apply Z.eqb_eq in K. exfalso. apply (HK i); [lia|exact K]. }
    destruct (IH (S i) {| lidar_index := li; rgb_index := ri |}) as (O & N & E).
    { intros e' ts' Hin. apply (HI e' ts'). right. exact Hin. }
    { lia. }
    { intros k Hk. apply HK. lia. }
    cbn [then_ outcome iterations length]. repeat split; auto.
    unfold shown, count in *. cbn [then_ iterations flat_map displayed].
    cbn [app filter is_events length].
    rewrite <- app_assoc, !filter_app, !length_app, E.
    destruct AL as [(p & ts & _ & _ & -> & _)|(_ & -> & _)];
      destruct AR as [(p' & ts' & _ & _ & -> & _)|(_ & -> & _)]; reflexivity.
Qed.

(** C1, as worded, fails on the code: with one reference entry stamped 10
    and two point clouds stamped 1 and 2, the only iteration displays the
    first cloud and leaves the second, which is not later than the
    reference, at the cursor; it is never displayed. *)
Lemma C1_second_cloud_left_behind :
  ~ drains_all_eligible a_two_clouds (main 1280 720 a_two_clouds no_key)
  /\ nth_error (lidar_clouds a_two_clouds) 1 = Some (cloud_two, 2%Q)
  /\ Qle_bool 2 10 = true
  /\ lidar_index (final (main 1280 720 a_two_clouds no_key)) = 1%nat
  /\ ~ In (viz_point_cloud cloud_two) (shown (main 1280 720 a_two_clouds no_key)).
Proof.
  split; [|split; [reflexivity|split; [reflexivity|split; [reflexivity|]]]].
  - intros D.
    destruct (D 0%nat it_two_clouds [] 10%Q eq_refl eq_refl) as [HL _].
    vm_compute in HL. discriminate.
  - cbn. intros [F|[F|[F|[]]]]; discriminate.
Qed.

(** C1 (amended): every iteration of the replay loop displays the reference
    entry of its index and then, for the point clouds and for the color
    images, at most one entry: the one at the cursor, when it exists and is
    not later than the reference entry, the cursor then advancing by one.
    (An iteration that cannot display its reference entry ends the run and
    displays nothing else.) *)
Theorem C1_one_entry_per_modality_and_reference
    (W H : Z) (a : Archive) (keys : nat -> Z) (j : nat) (it : iteration) :
  nth_error (iterations (main W H a keys)) j = Some it ->
  iteration_shows W H a
    (cursors_before start (iterations (main W H a keys)) j) j it.
Proof.
  intros Hj. unfold main in *.
  destruct (replay_loop_iterations W H a keys _ _ _ _ _ Hj) as (e & ts & He & Hr).
  exists e, ts. split; [exact He|exact Hr].
Qed.

(** C1 on the archive with one reference entry and two point clouds. *)
Lemma C1_one_entry_witness :
  nth_error (iterations (main 1280 720 a_two_clouds no_key)) 0
  = Some it_two_clouds
  /\ iteration_shows 1280 720 a_two_clouds start 0 it_two_clouds.
Proof.
  split; [reflexivity|].
  exact (C1_one_entry_per_modality_and_reference 1280 720 a_two_clouds no_key 0
           it_two_clouds eq_refl).
Defined.

(** C6, as worded, fails on the code: an archive whose depth sequence is
    shorter than the reference makes the loop raise [IndexError] (here with
    no point cloud at all); so does an archive with an event outside the
    image of the replay; and the Escape key ends the loop before the second
    reference entry. *)
Lemma C6_not_every_run_completes :
  (length (lidar_clouds a_short_depth) = 0%nat
   /\ outcome (main 1280 720 a_short_depth no_key) = Raised IndexError)
  /\ (length (lidar_clouds a_wide_event) = 0%nat
      /\ length (depth_images a_wide_event) = length (events a_wide_event)
      /\ outcome (main 640 480 a_wide_event no_key) = Raised IndexError
      /\ count is_events (shown (main 640 480 a_wide_event no_key)) = 1%nat)
  /\ (length (lidar_clouds a_no_clouds) = 0%nat
      /\ outcome (main 1280 720 a_no_clouds esc_key) = Escaped
      /\ length (events a_no_clouds) = 2%nat
      /\ count is_events (shown (main 1280 720 a_no_clouds esc_key)) = 1%nat)
  /\ ~ completes a_short_depth (main 1280 720 a_short_depth no_key)
  /\ ~ completes a_wide_event (main 640 480 a_wide_event no_key)
  /\ ~ completes a_no_clouds (main 1280 720 a_no_clouds esc_key).
Proof.
  repeat split; try reflexivity; intros (F & _); discriminate.
Qed.

(** C6 (amended): the cursors start at 0; in every iteration they do not
    go back and do not exceed the length of their sequence; a cursor at the
    end of its sequence stays and nothing is displayed for it, whatever the
    length of the sequence (0 included).  When the events index the image
    of [viz_events], the depth sequence has an entry for every reference
    entry and Escape is not pressed, the loop displays all the reference
    entries and ends normally, whatever the lengths of the other two
    sequences. *)
Theorem C6_cursor_invariants (W H : Z) (a : Archive) (keys : nat -> Z) :
  cursors_before start (iterations (main W H a keys)) 0
    = {| lidar_index := 0; rgb_index := 0 |}
  /\ (forall j it,
        nth_error (iterations (main W H a keys)) j = Some it ->
        cursors_safe a (cursors_before start (iterations (main W H a keys)) j) it)
  /\ ((forall e ts, In (e, ts) (events a) -> inside W H e) ->
      (length (events a) <= length (depth_images a))%nat ->
      (forall k, (k < length (events a))%nat -> keys k <> 27) ->
      completes a (main W H a keys)).
Proof.
  split; [reflexivity|]. split.
  - intros j it Hj. unfold main in *.
    apply (replay_loop_cursors W H a keys (events a) 0%nat start j it);
      [cbn; lia|cbn; lia|exact Hj].
  - intros HI HD HK. unfold completes, main.
    apply replay_loop_completes; [exact HI|exact HD|].
    intros k Hk. apply HK. apply Hk.
Qed.

(** C6 on an archive without point clouds, no key being Escape. *)
Lemma C6_cursor_invariants_witness :
  length (lidar_clouds a_no_clouds) = 0%nat
  /\ completes a_no_clouds (main 1280 720 a_no_clouds no_key).
Proof.
  split; [reflexivity|].
  apply (C6_cursor_invariants 1280 720 a_no_clouds no_key).
  - intros e ts [E|[E|[]]]; injection E as <- _; eexists; reflexivity.
  - cbn. lia.
  - intros k _. unfold no_key. discriminate.
Defined.

End ReplayMerger.

(** ** The session of generate_sequence.py *)

Module RecordingSession.

Import generate_sequence_args generate_sequence.

(** *** Arithmetic *)

Lemma floordiv_at_least_one (a b : Q) :
  (0 < b)%Q -> (b <= a)%Q ->
  exists k, floordiv a b = inr k /\ 1 <= k.
Proof.
  intros Hb Hab. unfold floordiv.
  destruct (Qeq_bool b 0) eqn:E.
  - apply Qeq_bool_iff in E. rewrite E in Hb. discriminate.
  - eexists. split; [reflexivity|].
    change 1 with (Qfloor 1). apply Qfloor_resp_le.
    apply Qle_shift_div_l; [exact Hb|]. rewrite Qmult_1_l. exact Hab.
Qed.

Lemma kept_from_app {A : Type} (keep : Z) (l1 l2 : list A) :
  forall c,
    kept_from keep c (l1 ++ l2)
    = kept_from keep c l1 ++ kept_from keep (c + Z.of_nat (length l1)) l2.
Proof.
  induction l1 as [|x l1 IH]; intros c; cbn [kept_from app length].
  - rewrite Z.add_0_r. reflexivity.
  - replace (c + Z.of_nat (S (length l1))) with (c + 1 + Z.of_nat (length l1))
      by lia.
    destruct (c mod keep =? 0); cbn; rewrite IH; reflexivity.
Qed.

Lemma kept_from_one {A : Type} (l : list A) :
  forall c, kept_from 1 c l = l.
Proof.
  induction l as [|x l IH]; intros c; cbn; [reflexivity|].
  rewrite Z.mod_1_r. cbn. rewrite IH. reflexivity.
Qed.

(** Number of multiples of [keep] in [[c, c + n)], in closed form. *)
Lemma kept_from_length {A : Type} (keep : Z) (l : list A) :
  0 < keep ->
  forall c,
    Z.of_nat (length (kept_from keep c l))
    = (c + Z.of_nat (length l) + keep - 1) / keep - (c + keep - 1) / keep.
Proof.
  intros Hk. induction l as [|x l IH]; intros c.
  - cbn. rewrite Z.add_0_r. lia.
  - cbn [kept_from length].
    assert (Hstep : (c + 1 + keep - 1) / keep
                    = (c + keep - 1) / keep + (if c mod keep =? 0 then 1 else 0)).
    { pose proof (Z.div_mod c keep ltac:(lia)) as E.
      pose proof (Z.mod_pos_bound c keep Hk) as B.
      set (q := c / keep) in *. set (m := c mod keep) in *.
      destruct (m =? 0) eqn:M.
      - apply Z.eqb_eq in M.
        replace (c + 1 + keep - 1) with ((q + 1) * keep) by lia.
        rewrite Z.div_mul by lia.
        replace (c + keep - 1) with (q * keep + (keep - 1)) by lia.
        rewrite Z.div_add_l by lia. rewrite Z.div_small by lia. lia.
      - apply Z.eqb_neq in M.
        replace (c + 1 + keep - 1) with ((q + 1) * keep + m) by lia.
        rewrite Z.div_add_l by lia. rewrite Z.div_small by lia.
        replace (c + keep - 1) with ((q + 1) * keep + (m - 1)) by lia.
        rewrite Z.div_add_l by lia. rewrite Z.div_small by lia. lia. }
    replace (c + Z.of_nat (S (length l)) + keep - 1)
      with (c + 1 + Z.of_nat (length l) + keep - 1) by lia.
    destruct (c mod keep =? 0); cbn [length];
      [rewrite Nat2Z.inj_succ|]; rewrite IH; lia.
Qed.

Lemma ceil_div_spec (m keep : Z) :
  0 < keep -> ceil_div m keep = (m + keep - 1) / keep.
Proof.
  intros Hk. unfold ceil_div, Qceiling.
  destruct keep as [|p|p]; try lia.
  cbn. rewrite Z.mul_1_r.
  pose proof (Z.div_mod (- m) (Z.pos p) ltac:(lia)) as E.
  pose proof (Z.mod_pos_bound (- m) (Z.pos p) ltac:(lia)) as B.
  set (q := - m / Z.pos p) in *. set (t := (- m) mod Z.pos p) in *.
  replace (m + Z.pos p - 1) with ((- q) * Z.pos p + (Z.pos p - 1 - t)) by lia.
  rewrite Z.div_add_l by lia. rewrite Z.div_small by lia. lia.
Qed.

(** *** One pass over the point-cloud queue *)

Lemma pop_front_skipn {A : Type} (n : nat) :
  forall q : list A, pop_front n q = skipn n q.
Proof.
  unfold pop_front. induction n as [|n IH]; intros q; [reflexivity|].
  rewrite Nat.iter_succ_r. destruct q as [|x q]; cbn [tl skipn].
  - rewrite IH. apply skipn_nil.
  - apply IH.
Qed.

Lemma concat_length_sum {A B : Type} (f : A -> list B) (l : list A) :
  length (concat (List.map f l)) = list_sum (List.map (fun x => length (f x)) l).
Proof.
  induction l as [|x l IH]; cbn; [reflexivity|].
  rewrite length_app, IH. reflexivity.
Qed.

Lemma subpackets_positive (args : Args) :
  (1 <= lidar_subpackets_per_pcl args)%nat.
Proof. unfold lidar_subpackets_per_pcl. destruct (lidar_is_pandora args); lia. Qed.

Lemma merges_front_firstn (n : nat) (q : list (Measurement (list LidarPoint))) :
  (1 <= n <= length q)%nat ->
  merges_front n q (skipn n q) (concatenate n q, first_timestamp q).
Proof.
  intros Hn. exists (firstn n q). cbn [fst snd].
  split; [symmetry; apply firstn_skipn|].
  split; [apply firstn_length_le; lia|].
  split; [reflexivity|].
  split; [apply concat_length_sum|].
  destruct q as [|m q]; [cbn in Hn; lia|].
  destruct n as [|n]; [lia|]. reflexivity.
Qed.

(** When the queue holds enough entries and the modulus is not zero, a
    cloud is formed, counted, kept or not by the counter, and its entries
    leave the queue. *)
Lemma drain_lidar_forms (args : Args) (keep : Z) (s : Recording) :
  keep <> 0 ->
  (lidar_subpackets_per_pcl args <= length (ego_vehicle.lidar_queue (ego s)))%nat ->
  exists s' cloud,
    drain_lidar args keep s = inr s'
    /\ merged s' = merged s ++ [cloud]
    /\ current_lidar_idx s' = current_lidar_idx s + 1
    /\ lidar_clouds_queue s'
       = (if current_lidar_idx s mod keep =? 0
          then lidar_clouds_queue s ++ [cloud] else lidar_clouds_queue s)
    /\ merges_front (lidar_subpackets_per_pcl args)
         (ego_vehicle.lidar_queue (ego s)) (ego_vehicle.lidar_queue (ego s'))
         cloud
    /\ ego_vehicle.dvs_queue (ego s') = ego_vehicle.dvs_queue (ego s)
    /\ ego_vehicle.depth_queue (ego s') = ego_vehicle.depth_queue (ego s)
    /\ ego_vehicle.rgb_queue (ego s') = ego_vehicle.rgb_queue (ego s).
Proof.
  intros Hk Hn. unfold drain_lidar, mod_is_zero.
  apply Nat.leb_le in Hn. rewrite Hn.
  apply Z.eqb_neq in Hk. rewrite Hk.
  eexists. eexists. split; [reflexivity|]. cbn.
  repeat split.
  rewrite pop_front_skipn. apply merges_front_firstn.
  apply Nat.leb_le in Hn. pose proof (subpackets_positive args). lia.
Qed.

Lemma drain_lidar_waits (args : Args) (keep : Z) (s : Recording) :
  (length (ego_vehicle.lidar_queue (ego s)) < lidar_subpackets_per_pcl args)%nat ->
  drain_lidar args keep s = inr s.
Proof.
  intros Hn. unfold drain_lidar.
  apply Nat.leb_gt in Hn. rewrite Hn. reflexivity.
Qed.

(** *** The decimation invariant along the recording loop *)

Lemma drain_lidar_decimated (args : Args) (keep : Z) (s s' : Recording) :
  drain_lidar args keep s = inr s' -> decimated keep s -> decimated keep s'.
Proof.
  unfold drain_lidar, mod_is_zero, decimated. intros H [I1 I2].
  destruct (_ <=? _)%nat; [|injection H as <-; auto].
  destruct (keep =? 0); [discriminate|]. injection H as <-. cbn.
  rewrite kept_from_app, length_app, <- I1, <- I2. cbn [kept_from length].
  rewrite Z.add_0_l.
  split; [|lia].
  destruct (current_lidar_idx s mod keep =? 0); [reflexivity|].
  symmetry. apply app_nil_r.
Qed.

Lemma drain_events_lidar (s : Recording) :
  lidar_clouds_queue (drain_events s) = lidar_clouds_queue s
  /\ merged (drain_events s) = merged s
  /\ current_lidar_idx (drain_events s) = current_lidar_idx s
  /\ ego_vehicle.lidar_queue (ego (drain_events s))
     = ego_vehicle.lidar_queue (ego s).
Proof.
  unfold drain_events. destruct (ego_vehicle.dvs_queue (ego s)); cbn; auto.
Qed.

Lemma drain_depth_lidar (s : Recording) :
  lidar_clouds_queue (drain_depth s) = lidar_clouds_queue s
  /\ merged (drain_depth s) = merged s
  /\ current_lidar_idx (drain_depth s) = current_lidar_idx s
  /\ ego_vehicle.lidar_queue (ego (drain_depth s))
     = ego_vehicle.lidar_queue (ego s).
Proof.
  unfold drain_depth. destruct (ego_vehicle.depth_queue (ego s)); cbn; auto.
Qed.

Lemma drain_rgb_lidar (s : Recording) :
  lidar_clouds_queue (drain_rgb s) = lidar_clouds_queue s
  /\ merged (drain_rgb s) = merged s
  /\ current_lidar_idx (drain_rgb s) = current_lidar_idx s
  /\ ego_vehicle.lidar_queue (ego (drain_rgb s))
     = ego_vehicle.lidar_queue (ego s).
Proof.
  unfold drain_rgb. destruct (ego_vehicle.rgb_queue (ego s)); cbn; auto.
Qed.

Lemma decimated_ext (keep : Z) (s s' : Recording) :
  lidar_clouds_queue s' = lidar_clouds_queue s ->
  merged s' = merged s ->
  current_lidar_idx s' = current_lidar_idx s ->
  decimated keep s -> decimated keep s'.
Proof. unfold decimated. intros -> -> ->. auto. Qed.

Lemma record_tick_decimated (args : Args) (keep : Z) (w : World) (k : nat)
    (s s' : Recording) :
  record_tick args keep w k s = inr s' -> decimated keep s -> decimated keep s'.
Proof.
  unfold record_tick, drain. intros H I.
  destruct (tick w k) as [x|d]; [discriminate|].
  destruct (drain_lidar _ _ _) as [x|s1] eqn:E; [discriminate|].
  injection H as <-.
  destruct (drain_rgb_lidar s1) as (R1 & R2 & R3 & _).
  apply (decimated_ext keep s1); auto.
  apply (drain_lidar_decimated _ _ _ _ E).
  destruct (drain_depth_lidar (drain_events (with_ego s (deliver d (ego s)))))
    as (D1 & D2 & D3 & _).
  destruct (drain_events_lidar (with_ego s (deliver d (ego s))))
    as (E1 & E2 & E3 & _).
  apply (decimated_ext keep s); auto.
  - rewrite D1, E1. reflexivity.
  - rewrite D2, E2. reflexivity.
  - rewrite D3, E3. reflexivity.
Qed.

Lemma record_loop_decimated (args : Args) (keep : Z) (w : World) :
  forall n k s s',
    record_loop args keep w n k s = inr s' ->
    decimated keep s -> decimated keep s'.
Proof.
  induction n as [|n IH]; intros k s s' H I; cbn in H.
  - injection H as <-. exact I.
  - destruct (record_tick args keep w k s) as [x|s1] eqn:E; [discriminate|].
    apply (IH _ _ _ H). apply (record_tick_decimated _ _ _ _ _ _ E I).
Qed.

(** No point is lost or merged twice: a tick only adds what it delivers. *)
Lemma drain_lidar_points (args : Args) (keep : Z) (s s' : Recording) :
  drain_lidar args keep s = inr s' -> lidar_points s' = lidar_points s.
Proof.
  unfold drain_lidar. intros H.
  destruct (_ <=? _)%nat; [|injection H as <-; reflexivity].
  destruct (mod_is_zero _ _); [discriminate|]. injection H as <-.
  unfold lidar_points. cbn [merged ego ego_vehicle.with_queues
                              ego_vehicle.lidar_queue].
  rewrite map_app, concat_app. cbn [List.map concat fst].
  rewrite app_nil_r, <- app_assoc. f_equal.
  rewrite pop_front_skipn. unfold concatenate.
  rewrite <- concat_app, <- map_app, firstn_skipn. reflexivity.
Qed.

Lemma record_tick_points (args : Args) (keep : Z) (w : World) (k : nat)
    (s s' : Recording) :
  record_tick args keep w k s = inr s' ->
  lidar_points s'
  = lidar_points s ++ concat (List.map raw_data (delivered_lidar w k 1)).
Proof.
  unfold record_tick, drain, delivered_lidar. intros H. cbn [seq flat_map].
  destruct (tick w k) as [x|d]; [discriminate|].
  set (s0 := with_ego s (deliver d (ego s))) in *.
  destruct (drain_events_lidar s0) as (_ & E2 & _ & E4).
  destruct (drain_depth_lidar (drain_events s0)) as (_ & D2 & _ & D4).
  destruct (drain_lidar _ _ _) as [x|s1] eqn:E; [discriminate|].
  injection H as <-.
  destruct (drain_rgb_lidar s1) as (_ & R2 & _ & R4).
  apply drain_lidar_points in E.
  unfold lidar_points in *. rewrite R2, R4, E, D2, D4, E2, E4.
  subst s0. cbn. rewrite app_nil_r, map_app, concat_app, app_assoc.
  reflexivity.
Qed.

Lemma record_loop_points (args : Args) (keep : Z) (w : World) :
  forall n k s s',
    record_loop args keep w n k s = inr s' ->
    lidar_points s'
    = lidar_points s ++ concat (List.map raw_data (delivered_lidar w k n)).
Proof.
  induction n as [|n IH]; intros k s s' H; cbn [record_loop] in H.
  - injection H as <-. cbn. symmetry. apply app_nil_r.
  - destruct (record_tick args keep w k s) as [x|s1] eqn:E; [discriminate|].
    rewrite (IH _ _ _ H), (record_tick_points _ _ _ _ _ _ E).
    rewrite <- app_assoc, <- concat_app, <- map_app. f_equal.
    unfold delivered_lidar. cbn [seq flat_map]. rewrite app_nil_r.
    reflexivity.
Qed.

(** A tick forms at most one cloud. *)
Lemma record_tick_merged_le (args : Args) (keep : Z) (w : World) (k : nat)
    (s s' : Recording) :
  record_tick args keep w k s = inr s' ->
  (length (merged s') <= S (length (merged s)))%nat.
Proof.
  unfold record_tick, drain. intros H.
  destruct (tick w k) as [x|d]; [discriminate|].
  set (s0 := with_ego s (deliver d (ego s))) in *.
  destruct (drain_events_lidar s0) as (_ & E2 & _).
  destruct (drain_depth_lidar (drain_events s0)) as (_ & D2 & _).
  destruct (drain_lidar _ _ _) as [x|s1] eqn:E; [discriminate|].
  injection H as <-.
  destruct (drain_rgb_lidar s1) as (_ & R2 & _). rewrite R2.
  unfold drain_lidar in E.
  destruct (_ <=? _)%nat.
  - destruct (mod_is_zero _ _); [discriminate|]. injection E as <-.
    cbn [merged]. rewrite length_app, D2, E2. subst s0. cbn. lia.
  - injection E as <-. rewrite D2, E2. subst s0. cbn. lia.
Qed.

Lemma record_loop_merged_le (args : Args) (keep : Z) (w : World) :
  forall n k s s',
    record_loop args keep w n k s = inr s' ->
    (length (merged s') <= length (merged s) + n)%nat.
Proof.
  induction n as [|n IH]; intros k s s' H; cbn [record_loop] in H.
  - injection H as <-. lia.
  - destruct (record_tick args keep w k s) as [x|s1] eqn:E; [discriminate|].
    apply IH in H. apply record_tick_merged_le in E. lia.
Qed.

(** *** The shape of a session *)

Lemma teardown_calls (r : Registry) :
  forallb is_teardown_call (teardown r) = true.
Proof.
  unfold teardown, ego_vehicle.destroy.
  rewrite !forallb_app. cbn [forallb is_teardown_call andb].
  assert (HL : forall l, forallb is_teardown_call (List.map actor_destroy l) = true)
    by (induction l; cbn; auto).
  assert (HV : forall l, forallb is_teardown_call (flat_map ai_vehicle.destroy l) = true)
    by (induction l; cbn; auto).
  assert (HP : forall l, forallb is_teardown_call (flat_map ai_pedestrian.destroy l) = true)
    by (induction l; cbn; auto).
  rewrite HV, HP. destruct (ego_vehicle.lidar_is_pandora _); rewrite HL; reflexivity.
Qed.

Lemma started_calls (ps : list ai_pedestrian.AIPedestrian) :
  forallb (fun f => negb (is_teardown_call f) && negb (is_savez f))
    (flat_map ai_pedestrian.start_controller ps) = true.
Proof. induction ps; cbn; auto. Qed.

Lemma find_savez_skip (l l' : list effect) :
  forallb (fun f => negb (is_savez f)) l = true ->
  find is_savez (l ++ l') = find is_savez l'.
Proof.
  induction l as [|f l IH]; cbn; [reflexivity|].
  intros H. apply andb_true_iff in H as [H1 H2].
  destruct (is_savez f); [discriminate|]. auto.
Qed.

Lemma find_savez_started (ps : list ai_pedestrian.AIPedestrian) (l : list effect) :
  find is_savez (flat_map ai_pedestrian.start_controller ps ++ l)
  = find is_savez l.
Proof.
  apply find_savez_skip. pose proof (started_calls ps) as H.
  rewrite forallb_forall in *. intros f Hf.
  specialize (H f Hf). apply andb_true_iff in H. tauto.
Qed.

Lemma find_savez_teardown (r : Registry) :
  find is_savez (teardown r) = None.
Proof.
  rewrite <- (app_nil_r (teardown r)). rewrite find_savez_skip; [reflexivity|].
  pose proof (teardown_calls r) as H. rewrite forallb_forall in *.
  intros f Hf. specialize (H f Hf). destruct f; cbn in *; congruence.
Qed.

(** The cases of [session], one goal per way through [main]. *)
Ltac session_cases args w r :=
  unfold session, try_block, failed;
  destruct (ticks_to_discard args) as [?x|?nd] eqn:?Hnd;
  [| destruct (ticks_to_record args) as [?x|?nr] eqn:?Hnr;
     [| destruct (keep_lidar_every_x_idx args) as [?x|?keep] eqn:?Hkeep;
        [| destruct (tick w 0) as [?x|?d0] eqn:?Htick0;
           [| destruct (discard_loop w _ 1 _) as [?x|[?k ?e]] eqn:?Hdiscard;
              [| destruct (record_loop args _ w _ _ _) as [?x|?s] eqn:?Hrecord;
                 [| destruct (savez_raises w) as [?x|] eqn:?Hsavez;
                    [| destruct (csv_raises w) as [?x|] eqn:?Hcsv ]]]]]]];
  cbn [log raised recorded].

Ltac find_savez r :=
  unfold saved_archive; cbn [log];
  rewrite <- ?app_assoc, ?find_savez_started;
  cbn [app find is_savez]; rewrite ?find_savez_teardown.

(** The warm-up loop makes one call of [world.tick()] per iteration. *)
Lemma discard_loop_next (w : World) :
  forall n k e k' e',
    discard_loop w n k e = inr (k', e') -> k' = (k + n)%nat.
Proof.
  induction n as [|n IH]; intros k e k' e' H; cbn in H.
  - injection H as <- _. lia.
  - destruct (tick w k) as [x|d]; [discriminate|].
    apply IH in H. lia.
Qed.

(** A session that completed the recording loop entered it after the
    warm-up, with cleared queues and fresh recording variables. *)
Lemma session_recorded (args : Args) (w : World) (r : Registry) (s : Recording) :
  recorded (session args w r) = Some s ->
  exists keep d0 e,
    keep_lidar_every_x_idx args = inr keep
    /\ tick w 0 = inr d0
    /\ discard_loop w (discarded_ticks args) 1
         (deliver d0 (ego_vehicle_ r)) = inr (S (discarded_ticks args), e)
    /\ record_loop args keep w (recorded_ticks args)
         (S (discarded_ticks args))
         (start_recording (ego_vehicle.clear_sensor_queues e)) = inr s.
Proof.
  unfold discarded_ticks, recorded_ticks.
  session_cases args w r; intros H; try discriminate;
    injection H as <-;
    pose proof (discard_loop_next _ _ _ _ _ _ Hdiscard) as ->;
    exists keep, d0, e; auto.
Qed.

(** The two tick counts of a session that entered its recording loop. *)
Lemma session_counts (args : Args) (w : World) (r : Registry) (s : Recording) :
  recorded (session args w r) = Some s ->
  exists nd nr,
    ticks_to_discard args = inr nd /\ ticks_to_record args = inr nr.
Proof.
  session_cases args w r; intros H; try discriminate; eauto.
Qed.

(** The archive written is the content of the four recording buffers at the
    end of the recording loop. *)
Lemma session_saved (args : Args) (w : World) (r : Registry) (a : Archive) :
  saved_archive (session args w r) = Some a ->
  savez_raises w = None
  /\ exists s, recorded (session args w r) = Some s /\ a = archive_of s.
Proof.
  session_cases args w r; find_savez r; intros H; try discriminate;
    injection H as <-; eauto.
Qed.

Lemma session_saves (args : Args) (w : World) (r : Registry) (s : Recording) :
  recorded (session args w r) = Some s ->
  savez_raises w = None ->
  saved_archive (session args w r) = Some (archive_of s).
Proof.
  session_cases args w r; find_savez r; intros H1 H2; try discriminate;
    injection H1 as <-; reflexivity.
Qed.

Lemma session_decimated (args : Args) (w : World) (r : Registry) (s : Recording) :
  recorded (session args w r) = Some s ->
  exists keep, keep_lidar_every_x_idx args = inr keep /\ decimated keep s.
Proof.
  intros H. destruct (session_recorded _ _ _ _ H) as (keep & d0 & e & K & _ & _ & L).
  exists keep. split; [exact K|].
  apply (record_loop_decimated _ _ _ _ _ _ _ L). split; reflexivity.
Qed.

(** *** A world that delivers a point cloud at every tick *)

Lemma discard_loop_calm (w : World) :
  forall n k e,
    (forall j, (k <= j < k + n)%nat -> exists d, tick w j = inr d) ->
    exists e', discard_loop w n k e = inr ((k + n)%nat, e').
Proof.
  induction n as [|n IH]; intros k e H; cbn.
  - rewrite Nat.add_0_r. eauto.
  - destruct (H k ltac:(lia)) as [d ->].
    destruct (IH (S k) (deliver d e)) as (e' & E).
    { intros j Hj. apply H. lia. }
    exists e'. rewrite E. do 2 f_equal. lia.
Qed.


Lemma session_records (args : Args) (w : World) (r : Registry)
    (nd nr keep : Z) (d0 : Delivery) (e : ego_vehicle.EgoVehicle)
    (s : Recording) :
  ticks_to_discard args = inr nd ->
  ticks_to_record args = inr nr ->
  keep_lidar_every_x_idx args = inr keep ->
  tick w 0 = inr d0 ->
  discard_loop w (range_len nd) 1 (deliver d0 (ego_vehicle_ r))
  = inr (S (range_len nd), e) ->
  record_loop args keep w (range_len nr) (S (range_len nd))
    (start_recording (ego_vehicle.clear_sensor_queues e)) = inr s ->
  recorded (session args w r) = Some s.
Proof.
  intros ND NR K T D R. unfold session, try_block. rewrite ND, NR, K, T, D, R.
  destruct (savez_raises w); [reflexivity|].
  destruct (csv_raises w); reflexivity.
Qed.

(** *** The decimation factor (C2) *)

(** C2, as worded, fails on the code: both rates are positive, the point
    clouds are asked for at 200 Hz and the simulation ticks at 10 Hz; the
    factor is 0, the retention test is a modulo by zero, and the session
    ends with [ZeroDivisionError] at the first cloud formed. *)
Lemma C2_zero_factor_for_fast_point_clouds :
  (0 < hz fast_lidar_args)%Q
  /\ (0 < lidar_hz fast_lidar_args)%Q
  /\ keep_lidar_every_x_idx fast_lidar_args = inr 0
  /\ mod_is_zero 0 0 = inl ZeroDivisionError
  /\ raised (session fast_lidar_args steady_world sample_registry)
     = Some ZeroDivisionError.
Proof. repeat split. Qed.

(** C2 (amended): for every configuration whose point-cloud rate is
    positive and not above the tick rate, the factor is at least 1, so the
    retention test never divides by zero; and when the factor is 1 every
    cloud formed is kept: the sequence recorded, and written to the archive,
    is the sequence of the clouds formed. *)
Theorem C2_factor_at_least_one (args : Args) :
  (0 < lidar_hz args)%Q -> (lidar_hz args <= hz args)%Q ->
  exists keep,
    keep_lidar_every_x_idx args = inr keep
    /\ 1 <= keep
    /\ (forall c, mod_is_zero c keep = inr (c mod keep =? 0))
    /\ (keep = 1 ->
        forall w r s,
          recorded (session args w r) = Some s ->
          lidar_clouds_queue s = merged s
          /\ length (lidar_clouds_queue s) = length (merged s)
          /\ (forall a, saved_archive (session args w r) = Some a ->
                        lidar_clouds a = merged s)).
Proof.
  intros H0 H1.
  destruct (floordiv_at_least_one _ _ H0 H1) as (keep & K & G).
  exists keep. split; [exact K|]. split; [exact G|]. split.
  - intros c. unfold mod_is_zero.
    destruct (keep =? 0) eqn:E; [apply Z.eqb_eq in E; lia|reflexivity].
  - intros -> w r s R.
    destruct (session_decimated _ _ _ _ R) as (keep' & K' & D1 & _).
    unfold keep_lidar_every_x_idx in *. rewrite K in K'. injection K' as <-.
    rewrite kept_from_one in D1.
    split; [exact D1|]. split; [rewrite D1; reflexivity|].
    intros a A. destruct (session_saved _ _ _ _ A) as (_ & s' & R' & ->).
    rewrite R in R'. injection R' as <-. exact D1.
Qed.

(** C2 with the point clouds at the tick rate, in the steady world. *)
Lemma C2_factor_at_least_one_witness :
  exists keep s,
    keep_lidar_every_x_idx full_rate_args = inr keep
    /\ 1 <= keep
    /\ recorded (session full_rate_args steady_world sample_registry) = Some s
    /\ length (lidar_clouds_queue s) = length (merged s).
Proof.
  destruct (C2_factor_at_least_one full_rate_args) as (keep & K & G & _ & H).
  - reflexivity.
  - cbn. discriminate.
  - destruct (recorded (session full_rate_args steady_world sample_registry))
      as [s|] eqn:E.
    + exists keep, s. split; [exact K|]. split; [exact G|].
      split; [reflexivity|].
      assert (K1 : keep = 1) by (vm_compute in K; congruence).
      apply (H K1 steady_world sample_registry s E).
    + vm_compute in E. discriminate.
Defined.

(** *** The stream merger (C4) *)

(** C4, as worded, fails on the code: at 10 Hz with point clouds asked for
    at 200 Hz the factor is 0; with four entries in the queue the pass
    merges the first one and then raises at the retention test, before the
    pops: no entry leaves the queue, and the session ends with
    [ZeroDivisionError]. *)
Lemma C4_zero_factor_pops_nothing :
  keep_lidar_every_x_idx fast_lidar_args = inr 0
  /\ lidar_subpackets_per_pcl fast_lidar_args = 1%nat
  /\ length (ego_vehicle.lidar_queue (ego three_packets)) = 4%nat
  /\ drain_lidar fast_lidar_args 0 three_packets = inl ZeroDivisionError
  /\ ~ merger_pops fast_lidar_args 0 three_packets
  /\ raised (session fast_lidar_args steady_world sample_registry)
     = Some ZeroDivisionError.
Proof.
  split; [reflexivity|]. split; [reflexivity|]. split; [reflexivity|].
  split; [reflexivity|]. split; [|reflexivity].
  intros M. destruct M as (s' & cloud & E & _).
  - cbn. lia.
  - discriminate.
Qed.

(** C4 (amended): the merger takes 3 queue entries per cloud in Pandora
    mode and 1 otherwise.  When the queue holds that many and the
    decimation factor is not zero, the pass over the queue forms one cloud
    out of its first entries, in queue order: the payloads concatenated
    (the length of the cloud is the sum of their lengths), the time stamp
    of the first; these entries leave the queue and the rest stays as it
    was.  When the queue holds that many and the factor is zero, the pass
    raises [ZeroDivisionError] and pops nothing.  When the queue holds
    fewer, the pass changes nothing.  Along the recording loop every point
    delivered is therefore merged at most once and in order: the points of
    the clouds formed, followed by those still queued, are the points
    delivered. *)
Theorem C4_stream_merger (args : Args) (keep : Z) (s : Recording) :
  lidar_subpackets_per_pcl args = (if lidar_is_pandora args then 3 else 1)%nat
  /\ ((lidar_subpackets_per_pcl args
       <= length (ego_vehicle.lidar_queue (ego s)))%nat ->
      (keep <> 0 ->
       exists s' cloud,
         drain_lidar args keep s = inr s'
         /\ merged s' = merged s ++ [cloud]
         /\ merges_front (lidar_subpackets_per_pcl args)
              (ego_vehicle.lidar_queue (ego s))
              (ego_vehicle.lidar_queue (ego s')) cloud)
      /\ (keep = 0 -> drain_lidar args keep s = inl ZeroDivisionError))
  /\ ((length (ego_vehicle.lidar_queue (ego s))
       < lidar_subpackets_per_pcl args)%nat ->
      drain_lidar args keep s = inr s)
  /\ (forall w n k s',
        record_loop args keep w n k s = inr s' ->
        lidar_points s'
        = lidar_points s ++ concat (List.map raw_data (delivered_lidar w k n))).
Proof.
  split; [reflexivity|]. split; [|split].
  - intros Hn. split.
    + intros Hk.
      destruct (drain_lidar_forms args keep s Hk Hn)
        as (s' & cloud & E & M & _ & _ & F & _).
      exists s', cloud. auto.
    + intros ->. unfold drain_lidar, mod_is_zero.
      apply Nat.leb_le in Hn. rewrite Hn. reflexivity.
  - apply drain_lidar_waits.
  - intros w n k s'. apply record_loop_points.
Qed.

(** C4 in Pandora mode with four sub-packets queued. *)
Lemma C4_stream_merger_witness :
  exists s' cloud,
    drain_lidar pandora_args 20 three_packets = inr s'
    /\ merged s' = merged three_packets ++ [cloud]
    /\ merges_front 3 (ego_vehicle.lidar_queue (ego three_packets))
         (ego_vehicle.lidar_queue (ego s')) cloud.
Proof.
  destruct (C4_stream_merger pandora_args 20 three_packets) as (_ & F & _).
  apply F.
  - cbn. lia.
  - discriminate.
Defined.

(** *** The decimator (C3, C10) *)


Lemma drain_lidar_returns (args : Args) (keep : Z) (s : Recording) :
  keep <> 0 -> exists s', drain_lidar args keep s = inr s'.
Proof.
  intros Hk.
  destruct (Nat.le_gt_cases (lidar_subpackets_per_pcl args)
              (length (ego_vehicle.lidar_queue (ego s)))) as [H|H].
  - destruct (drain_lidar_forms args keep s Hk H) as (s' & c & E & _). eauto.
  - exists s. apply drain_lidar_waits. exact H.
Qed.


Lemma record_loop_returns (args : Args) (keep : Z) (w : World) :
  keep <> 0 ->
  forall n k s,
    (forall j, (k <= j < k + n)%nat -> exists d, tick w j = inr d) ->
    exists s', record_loop args keep w n k s = inr s'.
Proof.
  intros Hk. induction n as [|n IH]; intros k s H; cbn [record_loop]; [eauto|].
  destruct (H k ltac:(lia)) as (d & T).
  unfold record_tick, drain. rewrite T.
  destruct (drain_lidar_returns args keep
              (drain_depth (drain_events (with_ego s (deliver d (ego s))))) Hk)
    as (s1 & ->).
  apply IH. intros j Hj. apply H. lia.
Qed.



Lemma record_loop_ext (args : Args) (keep : Z) (w w' : World) :
  forall n k s,
    (forall j, (k <= j < k + n)%nat -> tick w j = tick w' j) ->
    record_loop args keep w n k s = record_loop args keep w' n k s.
Proof.
  induction n as [|n IH]; intros k s H; cbn [record_loop]; [reflexivity|].
  unfold record_tick. rewrite <- (H k ltac:(lia)).
  destruct (tick w k) as [x|d]; [reflexivity|].
  destruct (drain _ _ _) as [x|s1]; [reflexivity|].
  apply IH. intros j Hj. apply H. lia.
Qed.




(** C10, as worded, fails on the code.  With a zero factor (10 Hz, point
    clouds asked for at 200 Hz) the first recorded tick delivers a point
    cloud and the session raises on it: the first cloud is never kept.
    With a negative factor (point clouds asked for at -10 Hz in Pandora
    mode, factor -20) the session forms 40 clouds and keeps 2, while
    [ceil(40 / -20)] is -2. *)
Lemma C10_count_is_not_always_the_ceiling :
  (keep_lidar_every_x_idx fast_lidar_args = inr 0
   /\ (exists d, tick steady_world 3 = inr d /\ length (to_lidar d) = 1%nat)
   /\ raised (session fast_lidar_args steady_world sample_registry)
      = Some ZeroDivisionError
   /\ saved_archive (session fast_lidar_args steady_world sample_registry)
      = None)
  /\ keep_lidar_every_x_idx negative_rate_args = inr (- 20)
  /\ (exists s,
        recorded (session negative_rate_args recording_streams.pandora_world
                    sample_registry)
        = Some s
        /\ length (merged s) = 40%nat
        /\ length (lidar_clouds_queue s) = 2%nat)
  /\ ceil_div 40 (- 20) = - 2
  /\ ~ count_is_ceiling negative_rate_args recording_streams.pandora_world
        sample_registry.
Proof.
  split.
  { split; [reflexivity|]. split; [eexists; split; reflexivity|].
    split; reflexivity. }
  split; [reflexivity|].
  destruct (recorded (session negative_rate_args recording_streams.pandora_world
                        sample_registry))
    as [s|] eqn:E; [|vm_compute in E; discriminate].
  assert (M : length (merged s) = 40%nat
              /\ length (lidar_clouds_queue s) = 2%nat).
  { vm_compute in E. injection E as <-. split; reflexivity. }
  split; [exists s; split; [reflexivity|exact M]|].
  split; [reflexivity|].
  intros C. specialize (C (- 20) s eq_refl E).
  destruct M as (M1 & M2). rewrite M1, M2 in C. vm_compute in C. discriminate.
Qed.

(** C10 (amended): for a positive decimation factor, after any number of
    iterations of the recording loop the first cloud formed is the first
    cloud recorded (the counter starts at 0, a multiple of the factor), and
    the number of clouds recorded is [ceil(m / keep)], [m] being the number
    of clouds formed; so it is in a session that completes its recording
    loop, whose archive, when the write succeeds, holds the clouds
    recorded. *)
Theorem C10_first_cloud_kept_and_count (args : Args) (keep : Z) :
  keep_lidar_every_x_idx args = inr keep ->
  0 < keep ->
  0 mod keep = 0
  /\ (forall w n k e s,
        record_loop args keep w n k (start_recording e) = inr s ->
        (forall c rest, merged s = c :: rest ->
                        exists rest', lidar_clouds_queue s = c :: rest')
        /\ Z.of_nat (length (lidar_clouds_queue s))
           = ceil_div (Z.of_nat (length (merged s))) keep)
  /\ (forall w r s,
        recorded (session args w r) = Some s ->
        (forall c rest, merged s = c :: rest ->
                        exists rest', lidar_clouds_queue s = c :: rest')
        /\ Z.of_nat (length (lidar_clouds_queue s))
           = ceil_div (Z.of_nat (length (merged s))) keep
        /\ (savez_raises w = None ->
            exists a, saved_archive (session args w r) = Some a
                      /\ lidar_clouds a = lidar_clouds_queue s)).
Proof.
  intros K Hk.
  assert (G : forall s, decimated keep s ->
                (forall c rest, merged s = c :: rest ->
                                exists rest', lidar_clouds_queue s = c :: rest')
                /\ Z.of_nat (length (lidar_clouds_queue s))
                   = ceil_div (Z.of_nat (length (merged s))) keep).
  { intros s (D1 & D2). split.
    - intros c rest M. rewrite D1, M. cbn [kept_from].
      rewrite Zmod_0_l. cbn. eauto.
    - rewrite D1, kept_from_length, ceil_div_spec by lia.
      rewrite Z.add_0_l. rewrite (Z.div_small (0 + keep - 1)) by lia. lia. }
  split; [apply Zmod_0_l|]. split.
  - intros w n k e s L. apply G.
    apply (record_loop_decimated _ _ _ _ _ _ _ L). split; reflexivity.
  - intros w r s R.
    destruct (session_decimated _ _ _ _ R) as (keep' & K' & D).
    rewrite K in K'. injection K' as <-.
    destruct (G s D) as (G1 & G2).
    split; [exact G1|]. split; [exact G2|].
    intros HS. exists (archive_of s).
    split; [apply (session_saves _ _ _ _ R HS)|reflexivity].
Qed.

(** C10 on the short session in the steady world: 40 clouds formed with
    factor 20. *)
Lemma C10_first_cloud_kept_and_count_witness :
  exists s,
    recorded (session short_args steady_world sample_registry) = Some s
    /\ Z.of_nat (length (lidar_clouds_queue s))
       = ceil_div (Z.of_nat (length (merged s))) 20.
Proof.
  destruct (recorded (session short_args steady_world sample_registry))
    as [s|] eqn:E.
  - destruct (C10_first_cloud_kept_and_count short_args 20 eq_refl)
      as (_ & _ & C); [lia|].
    exists s. split; [reflexivity|].
    apply (C steady_world sample_registry s E).
  - vm_compute in E. discriminate.
Defined.

(** *** The warm-up (C5) *)

Lemma clear_deliver (d : Delivery) (e : ego_vehicle.EgoVehicle) :
  ego_vehicle.clear_sensor_queues (deliver d e)
  = ego_vehicle.clear_sensor_queues e.
Proof. reflexivity. Qed.

Lemma discard_loop_clear (w : World) :
  forall n k e k' e',
    discard_loop w n k e = inr (k', e') ->
    ego_vehicle.clear_sensor_queues e' = ego_vehicle.clear_sensor_queues e.
Proof.
  induction n as [|n IH]; intros k e k' e' H; cbn in H.
  - injection H as _ <-. reflexivity.
  - destruct (tick w k) as [x|d]; [discriminate|].
    rewrite (IH _ _ _ _ H). apply clear_deliver.
Qed.

Lemma clear_queues_empty (e : ego_vehicle.EgoVehicle) :
  queues_empty (ego_vehicle.clear_sensor_queues e).
Proof. repeat split. Qed.

(** C5: the recording loop starts right after [clear_sensor_queues], with
    the four queues empty and the four buffers empty; and what the sensors
    deliver during the warm-up (call 0 and the discarded ticks) has no
    influence on the session: two worlds that differ only there yield the
    same traced calls, hence the same archive, and the same recording
    variables. *)
Theorem C5_warmup_isolation (args : Args) (w w' : World) (r : Registry) :
  calm_warmup w (discarded_ticks args) ->
  calm_warmup w' (discarded_ticks args) ->
  same_after_warmup w w' (discarded_ticks args) ->
  session args w r = session args w' r
  /\ saved_archive (session args w r) = saved_archive (session args w' r)
  /\ (forall s,
        recorded (session args w r) = Some s ->
        exists keep e,
          queues_empty e
          /\ record_loop args keep w (recorded_ticks args)
               (S (discarded_ticks args)) (start_recording e)
             = inr s).
Proof.
  intros C C' (ST & SS & SC).
  assert (E : session args w r = session args w' r).
  { revert C C' ST. unfold discarded_ticks, session, try_block.
    destruct (ticks_to_discard args) as [x|nd]; [reflexivity|].
    destruct (ticks_to_record args) as [x|nr]; [reflexivity|].
    destruct (keep_lidar_every_x_idx args) as [x|keep]; [reflexivity|].
    intros C C' ST.
    destruct (C 0%nat ltac:(lia)) as (d0 & ->).
    destruct (C' 0%nat ltac:(lia)) as (d0' & ->).
    destruct (discard_loop_calm w (range_len nd) 1
                (deliver d0 (ego_vehicle_ r))) as (e & D).
    { intros j Hj. apply C. lia. }
    destruct (discard_loop_calm w' (range_len nd) 1
                (deliver d0' (ego_vehicle_ r))) as (e' & D').
    { intros j Hj. apply C'. lia. }
    rewrite D, D'.
    rewrite (discard_loop_clear _ _ _ _ _ _ D), (discard_loop_clear _ _ _ _ _ _ D').
    rewrite !clear_deliver.
    rewrite (record_loop_ext args keep w w').
    2:{ intros j Hj. apply ST. lia. }
    rewrite SS, SC. reflexivity. }
  split; [exact E|]. split; [rewrite E; reflexivity|].
  intros s R.
  destruct (session_recorded _ _ _ _ R) as (keep & d0 & e & _ & _ & _ & L).
  exists keep, (ego_vehicle.clear_sensor_queues e).
  split; [apply clear_queues_empty|exact L].
Qed.

(** C5 on the steady world and the same world with another warm-up. *)
Lemma C5_warmup_isolation_witness :
  session short_args steady_world sample_registry
  = session short_args (noisy_warmup_world 2) sample_registry.
Proof.
  apply (C5_warmup_isolation short_args steady_world (noisy_warmup_world 2)
           sample_registry).
  - intros k _. exists (steady_delivery k). reflexivity.
  - intros k _. cbn. destruct (k <=? _)%nat; eauto.
  - split; [|split; reflexivity].
    intros k Hk. cbn.
    change (discarded_ticks short_args) with 2%nat in Hk.
    destruct (k <=? 2)%nat eqn:E; [apply Nat.leb_le in E; lia|reflexivity].
Defined.

(** *** The index file (C7) *)

(** C7, as worded, fails on the code: with the archive written and the
    index file refusing the append, the exception leaves [main]. *)
Lemma C7_index_failure_is_fatal :
  ~ index_failure_not_fatal short_args no_index_world sample_registry
  /\ saved_archive (session short_args no_index_world sample_registry) <> None
  /\ raised (session short_args no_index_world sample_registry)
     = Some (Fault 13).
Proof.
  assert (S : saved_archive (session short_args no_index_world sample_registry)
              <> None) by (vm_compute; discriminate).
  split; [|split; [exact S|reflexivity]].
  intros H. specialize (H S ltac:(discriminate)).
  vm_compute in H. discriminate.
Qed.

(** C7 (amended): when the archive has been written and appending the row
    to the index file raises, nothing catches the exception: the row is not
    written, the [finally] block runs, and the exception leaves [main]; the
    archive stays written.  When the append succeeds the row is the base
    name of the archive, the number of point clouds recorded and the map. *)
Theorem C7_index_failure_propagates
    (args : Args) (w : World) (r : Registry) (a : Archive) :
  saved_archive (session args w r) = Some a ->
  let started := flat_map ai_pedestrian.start_controller (pedestrians r) in
  let saved := np_savez (compressed args) (output_file args) a in
  (forall x, csv_raises w = Some x ->
             raised (session args w r) = Some x
             /\ log (session args w r) = started ++ [saved] ++ teardown r)
  /\ (csv_raises w = None ->
      raised (session args w r) = None
      /\ log (session args w r)
         = started
           ++ [saved; csv_writerow (last_field (output_file args))
                        (length (lidar_clouds a)) (map args)]
           ++ teardown r).
Proof.
  session_cases args w r; find_savez r; intros H; try discriminate;
    injection H as <-; cbn zeta; split; try discriminate.
  - intros y Y. injection Y as <-. rewrite <- ?app_assoc. auto.
  - intros _. rewrite <- ?app_assoc. auto.
Qed.

(** C7 in the world whose index file cannot be appended to. *)
Lemma C7_index_failure_propagates_witness :
  exists a,
    saved_archive (session short_args no_index_world sample_registry) = Some a
    /\ raised (session short_args no_index_world sample_registry)
       = Some (Fault 13).
Proof.
  destruct (saved_archive (session short_args no_index_world sample_registry))
    as [a|] eqn:E.
  - exists a. split; [reflexivity|].
    apply (C7_index_failure_propagates _ _ _ _ E). reflexivity.
  - vm_compute in E. discriminate.
Defined.

(** *** The teardown (C8) *)

Lemma destroyed_app (l l' : list effect) :
  destroyed (l ++ l') = destroyed l ++ destroyed l'.
Proof. apply flat_map_app. Qed.

Lemma destroyed_none (l : list effect) :
  forallb (fun f => negb (is_teardown_call f)) l = true -> destroyed l = [].
Proof.
  induction l as [|f l IH]; [reflexivity|].
  intros H. cbn [forallb] in H. apply andb_true_iff in H as [H1 H2].
  change (f :: l) with ([f] ++ l). rewrite destroyed_app.
  rewrite (IH H2). destruct f; cbn in *; congruence.
Qed.

Lemma destroyed_actors (l : list actor) :
  destroyed (List.map actor_destroy l) = l.
Proof.
  induction l as [|a l IH]; [reflexivity|].
  change (destroyed (List.map actor_destroy (a :: l)))
    with (a :: destroyed (List.map actor_destroy l)).
  rewrite IH. reflexivity.
Qed.

Lemma destroyed_teardown (r : Registry) :
  destroyed (teardown r) = teardown_order r.
Proof.
  unfold teardown, teardown_order, ego_vehicle.destroy.
  rewrite !destroyed_app. cbn [destroyed flat_map app].
  assert (HL : destroyed
                 (if ego_vehicle.lidar_is_pandora (ego_vehicle_ r)
                  then List.map actor_destroy (ego_vehicle.lidar (ego_vehicle_ r))
                  else List.map actor_destroy (ego_vehicle.lidar (ego_vehicle_ r)))
               = ego_vehicle.lidar (ego_vehicle_ r))
    by (destruct (ego_vehicle.lidar_is_pandora _); apply destroyed_actors).
  rewrite HL.
  assert (HV : forall l, destroyed (flat_map ai_vehicle.destroy l)
                         = List.map ai_vehicle.vehicle l).
  { induction l as [|v l IH]; [reflexivity|].
    cbn [flat_map List.map]. rewrite destroyed_app, IH. reflexivity. }
  assert (HP : forall l,
             destroyed (flat_map ai_pedestrian.destroy l)
             = flat_map (fun p => [ai_pedestrian.controller p;
                                   ai_pedestrian.pedestrian p]) l).
  { induction l as [|q l IH]; [reflexivity|].
    cbn [flat_map]. rewrite destroyed_app, IH. reflexivity. }
  rewrite HV, HP. cbn [app]. rewrite <- !app_assoc. reflexivity.
Qed.

Lemma teardown_order_permutation (r : Registry) :
  Permutation (teardown_order r) (spawned_actors r).
Proof.
  unfold teardown_order, spawned_actors, ego_vehicle.actors.
  apply Permutation_app; [|apply Permutation_app_head].
  - symmetry. etransitivity; [apply Permutation_cons_append|].
    cbn [app]. rewrite <- app_assoc. reflexivity.
  - induction (pedestrians r) as [|p ps IH]; cbn; [constructor|].
    rewrite perm_swap. do 2 constructor. exact IH.
Qed.

Lemma session_log (args : Args) (w : World) (r : Registry) (nd nr keep : Z) :
  ticks_to_discard args = inr nd ->
  ticks_to_record args = inr nr ->
  keep_lidar_every_x_idx args = inr keep ->
  exists pre,
    log (session args w r) = pre ++ teardown r
    /\ forallb (fun f => negb (is_teardown_call f)) pre = true.
Proof.
  intros ND NR K.
  assert (HS : forallb (fun f => negb (is_teardown_call f))
                 (flat_map ai_pedestrian.start_controller (pedestrians r)) = true).
  { pose proof (started_calls (pedestrians r)) as H.
    rewrite forallb_forall in *. intros f Hf.
    specialize (H f Hf). apply andb_true_iff in H. tauto. }
  session_cases args w r; try congruence;
    eexists; (split; [reflexivity|]); rewrite ?forallb_app, ?HS; reflexivity.
Qed.

(** C8, as worded, fails on the code: whether the session fails at a tick
    or completes, the actors are destroyed in the order of their creation
    (ego-vehicle, AI vehicles, AI pedestrians), not in the reverse order. *)
Lemma C8_teardown_not_in_reverse_order :
  destroyed (log (session short_args failing_world sample_registry))
  = [2; 3; 4; 5; 1; 6; 7; 9; 8]%nat
  /\ destroyed (log (session short_args steady_world sample_registry))
     = [2; 3; 4; 5; 1; 6; 7; 9; 8]%nat
  /\ destroyed (reverse_order_teardown sample_registry)
     = [9; 8; 7; 6; 2; 3; 4; 5; 1]%nat
  /\ destroyed (log (session short_args failing_world sample_registry))
     <> destroyed (reverse_order_teardown sample_registry).
Proof.
  split; [reflexivity|]. split; [reflexivity|]. split; [reflexivity|].
  vm_compute. discriminate.
Qed.

(** C8 (amended): [main] enters its [try] block once the two tick counts
    and the decimation factor have been computed; when one of the three
    raises, nothing is destroyed.  Once the block is entered, the [finally]
    block runs exactly once at the end of the session, however the [try]
    block is left: no actor is destroyed before it, and (the [destroy()] and
    [stop()] calls being taken to return) it destroys every actor of the
    registries exactly once, in the order of creation of their owners: the
    sensors of the ego-vehicle and the ego-vehicle, the AI vehicles in the
    order registered, the AI pedestrians in the order registered, each
    controller before its pedestrian. *)
Theorem C8_teardown_always_runs (args : Args) (w : World) (r : Registry) :
  (forall nd nr keep,
     ticks_to_discard args = inr nd ->
     ticks_to_record args = inr nr ->
     keep_lidar_every_x_idx args = inr keep ->
     (exists pre,
        log (session args w r) = pre ++ teardown r
        /\ forallb (fun f => negb (is_teardown_call f)) pre = true)
     /\ destroyed (log (session args w r)) = teardown_order r
     /\ Permutation (destroyed (log (session args w r))) (spawned_actors r)
     /\ (NoDup (spawned_actors r) ->
         NoDup (destroyed (log (session args w r)))))
  /\ (forall x,
        ticks_to_discard args = inl x
        \/ (exists nd, ticks_to_discard args = inr nd
                       /\ ticks_to_record args = inl x)
        \/ (exists nd nr, ticks_to_discard args = inr nd
                          /\ ticks_to_record args = inr nr
                          /\ keep_lidar_every_x_idx args = inl x) ->
        session args w r = failed x
        /\ destroyed (log (session args w r)) = []).
Proof.
  split.
  - intros nd nr keep ND NR K.
    destruct (session_log args w r nd nr keep ND NR K) as (pre & L & P).
    assert (D : destroyed (log (session args w r)) = teardown_order r).
    { rewrite L, destroyed_app, (destroyed_none _ P). apply destroyed_teardown. }
    split; [eauto|]. split; [exact D|]. rewrite D. split.
    + apply teardown_order_permutation.
    + intros N. apply (Permutation_NoDup (l := spawned_actors r)); [|exact N].
      symmetry. apply teardown_order_permutation.
  - intros x [E|[(nd & ND & E)|(nd & nr & ND & NR & E)]]; unfold session.
    + rewrite E. auto.
    + rewrite ND, E. auto.
    + rewrite ND, NR, E. auto.
Qed.

(** C8 in the world whose simulator fails at tick 3. *)
Lemma C8_teardown_always_runs_witness :
  destroyed (log (session short_args failing_world sample_registry))
  = teardown_order sample_registry
  /\ raised (session short_args failing_world sample_registry) = Some (Fault 7).
Proof.
  split; [|reflexivity].
  destruct (C8_teardown_always_runs short_args failing_world sample_registry)
    as (T & _).
  apply (T 2 40 20); reflexivity.
Defined.

End RecordingSession.

(** ** The spawning loops of generate_sequence.py *)

Module Spawning.

Import generate_sequence_args generate_sequence.

Lemma random_choice_some {A : Type} (seq : list A) (r : nat) :
  seq <> [] -> exists x, random_choice seq r = inr x.
Proof.
  intros H. unfold random_choice.
  destruct (nth_error seq (r mod length seq)) as [x|] eqn:E; [eauto|].
  apply nth_error_None in E.
  assert (length seq <> 0)%nat by (destruct seq; cbn; congruence).
  pose proof (Nat.mod_upper_bound r (length seq) ltac:(assumption)). lia.
Qed.

(** Attempts that collide are retried, with the registry unchanged. *)
Lemma spawn_vehicles_collisions (args : Args) (w : Streets) :
  spawn_points w <> [] ->
  forall n fuel k inst,
    Z.of_nat (length inst) < nvehicles args ->
    (forall j t, (k <= j < k + n)%nat -> try_spawn_actor w j t = None) ->
    spawn_vehicles args w (n + fuel) k inst
    = spawn_vehicles args w fuel (k + n) inst.
Proof.
  intros HP. induction n as [|n IH]; intros fuel k inst HL HC.
  - rewrite Nat.add_0_r. reflexivity.
  - cbn [Nat.add spawn_vehicles].
    apply Z.ltb_lt in HL. rewrite HL. apply Z.ltb_lt in HL.
    destruct (random_choice_some (spawn_points w) (choice w k) HP) as (t & ->).
    rewrite (HC k t) by lia. cbn [ai_vehicle.init].
    rewrite IH; [f_equal; lia|exact HL|].
    intros j t' Hj. apply HC. lia.
Qed.

Lemma spawn_vehicles_never_gives_up (args : Args) (w : Streets) :
  spawn_points w <> [] ->
  (forall j t, try_spawn_actor w j t = None) ->
  forall fuel k inst,
    Z.of_nat (length inst) < nvehicles args ->
    spawn_vehicles args w fuel k inst = Running (k + fuel) inst.
Proof.
  intros HP HC fuel k inst HL.
  rewrite <- (Nat.add_0_r fuel) at 1.
  rewrite spawn_vehicles_collisions; auto.
  cbn. apply Z.ltb_lt in HL. rewrite HL. reflexivity.
Qed.

Lemma spawn_pedestrians_collisions (args : Args) (w : Streets) :
  forall n fuel k inst,
    Z.of_nat (length inst) < npedestrians args ->
    (forall j t, (k <= j < k + n)%nat -> try_spawn_actor w j t = None) ->
    spawn_pedestrians args w (n + fuel) k inst
    = spawn_pedestrians args w fuel (k + n) inst.
Proof.
  induction n as [|n IH]; intros fuel k inst HL HC.
  - rewrite Nat.add_0_r. reflexivity.
  - cbn [Nat.add spawn_pedestrians].
    apply Z.ltb_lt in HL. rewrite HL. apply Z.ltb_lt in HL.
    rewrite (HC k _) by lia. cbn [ai_pedestrian.init].
    rewrite IH; [f_equal; lia|exact HL|].
    intros j t' Hj. apply HC. lia.
Qed.

(** C9, as worded, fails on the code: on a map with one spawn point the
    sixth attempt succeeds after five collisions (six attempts for one
    placement), and when the point stays occupied the loop is still
    retrying after any number of iterations: it neither ends nor raises. *)
Lemma C9_retries_are_not_bounded :
  length (spawn_points sixth_time_lucky) = 1%nat
  /\ spawn_vehicles one_vehicle_args sixth_time_lucky 6 0 []
     = Finished 6 [ {| ai_vehicle.vehicle := 105%nat |} ]
  /\ length (spawn_points crowded) = 1%nat
  /\ spawn_vehicles one_vehicle_args crowded 1000 0 [] = Running 1000 []
  /\ ~ (exists fuel x inst,
          spawn_vehicles one_vehicle_args crowded fuel 0 [] = Aborted x inst)
  /\ ~ (exists fuel k inst,
          spawn_vehicles one_vehicle_args crowded fuel 0 [] = Finished k inst).
Proof.
  assert (R : forall fuel,
             spawn_vehicles one_vehicle_args crowded fuel 0 []
             = Running (0 + fuel) []).
  { intros fuel. apply spawn_vehicles_never_gives_up.
    - discriminate.
    - reflexivity.
    - cbn. lia. }
  split; [reflexivity|]. split; [reflexivity|]. split; [reflexivity|].
  split; [apply R|]. split.
  - intros (fuel & x & inst & H). rewrite R in H. discriminate.
  - intros (fuel & k & inst & H). rewrite R in H. discriminate.
Qed.

(** C9 (amended): an attempt that collides makes [try_spawn_actor] return
    [None], registers nothing, and the loop tries again with a newly drawn
    placement; so [n] collisions followed by a success (5 and then the
    sixth, for instance) raise nothing and register exactly one entity, for
    the vehicles and for the pedestrians.  Nothing bounds the retries: as
    long as every attempt collides the loop goes on, and no error is
    raised for exhausted placements. *)
Theorem C9_spawn_retry (args : Args) (w : Streets) :
  spawn_points w <> [] ->
  ai_vehicle.init None = None
  /\ (forall n a fuel k inst,
        nvehicles args = Z.of_nat (length inst) + 1 ->
        (forall j t, (k <= j < k + n)%nat -> try_spawn_actor w j t = None) ->
        (forall t, try_spawn_actor w (k + n) t = Some a) ->
        spawn_vehicles args w (n + S fuel) k inst
        = Finished (k + n + 1) (inst ++ [ {| ai_vehicle.vehicle := a |} ]))
  /\ (forall n a c fuel k inst,
        npedestrians args = Z.of_nat (length inst) + 1 ->
        (forall j t, (k <= j < k + n)%nat -> try_spawn_actor w j t = None) ->
        (forall t, try_spawn_actor w (k + n) t = Some a) ->
        spawn_controller w a = inr c ->
        spawn_pedestrians args w (n + S fuel) k inst
        = Finished (k + n + 1)
            (inst ++ [ {| ai_pedestrian.pedestrian := a;
                          ai_pedestrian.controller := c |} ]))
  /\ (forall fuel k inst,
        Z.of_nat (length inst) < nvehicles args ->
        (forall j t, try_spawn_actor w j t = None) ->
        spawn_vehicles args w fuel k inst = Running (k + fuel) inst).
Proof.
  intros HP. split; [reflexivity|]. split; [|split].
  - intros n a fuel k inst HN HC HS.
    rewrite spawn_vehicles_collisions by (auto; lia).
    cbn [spawn_vehicles].
    assert (HL : (Z.of_nat (length inst) <? nvehicles args) = true)
      by (apply Z.ltb_lt; lia).
    rewrite HL.
    destruct (random_choice_some (spawn_points w) (choice w (k + n)) HP)
      as (t & ->).
    rewrite HS. cbn [ai_vehicle.init].
    assert (HF : (Z.of_nat (length (inst ++ [ {| ai_vehicle.vehicle := a |} ]))
                  <? nvehicles args) = false)
      by (apply Z.ltb_ge; rewrite length_app; cbn; lia).
    destruct fuel; cbn [spawn_vehicles]; rewrite HF; f_equal; lia.
  - intros n a c fuel k inst HN HC HS HK.
    rewrite spawn_pedestrians_collisions by (auto; lia).
    cbn [spawn_pedestrians].
    assert (HL : (Z.of_nat (length inst) <? npedestrians args) = true)
      by (apply Z.ltb_lt; lia).
    rewrite HL, HS. cbn [ai_pedestrian.init]. rewrite HK.
    assert (HF : (Z.of_nat
                    (length (inst ++ [ {| ai_pedestrian.pedestrian := a;
                                          ai_pedestrian.controller := c |} ]))
                  <? npedestrians args) = false)
      by (apply Z.ltb_ge; rewrite length_app; cbn; lia).
    destruct fuel; cbn [spawn_pedestrians]; rewrite HF; f_equal; lia.
  - intros fuel k inst HL HC.
    apply spawn_vehicles_never_gives_up; auto.
Qed.

(** C9 on the map where the sixth attempt succeeds. *)
Lemma C9_spawn_retry_witness :
  spawn_vehicles one_vehicle_args sixth_time_lucky (5 + 1) 0 []
  = Finished (0 + 5 + 1) ([] ++ [ {| ai_vehicle.vehicle := 105%nat |} ]).
Proof.
  destruct (C9_spawn_retry one_vehicle_args sixth_time_lucky) as (_ & H & _).
  - discriminate.
  - apply (H 5%nat 105%nat 0%nat 0%nat []).
    + reflexivity.
    + intros j t Hj. unfold sixth_time_lucky, try_spawn_actor.
      destruct (j <? 5)%nat eqn:E; [reflexivity|].
      apply Nat.ltb_ge in E. lia.
    + reflexivity.
Defined.

End Spawning.

(** ** The recording loop beyond the point clouds *)

Module RecordingStreams.

Import generate_sequence_args generate_sequence recording_streams.

Lemma delivered_succ {A : Type} (f : Delivery -> list A) (w : World) (k n : nat) :
  delivered f w k (S n) = delivered f w k 1 ++ delivered f w (S k) n.
Proof. unfold delivered. cbn [seq flat_map]. rewrite app_nil_r. reflexivity. Qed.

Lemma drain_lidar_others (args : Args) (keep : Z) (s s' : Recording) :
  drain_lidar args keep s = inr s' ->
  events_seen s' = events_seen s /\ depth_seen s' = depth_seen s
  /\ rgb_seen s' = rgb_seen s
  /\ events_queue s' = events_queue s
  /\ depth_images_queue s' = depth_images_queue s
  /\ rgb_images_queue s' = rgb_images_queue s
  /\ ego_vehicle.dvs_queue (ego s') = ego_vehicle.dvs_queue (ego s)
  /\ ego_vehicle.depth_queue (ego s') = ego_vehicle.depth_queue (ego s).
Proof.
  unfold drain_lidar. intros H.
  destruct (_ <=? _)%nat; [|injection H as <-; repeat split].
  destruct (mod_is_zero _ _); [discriminate|]. injection H as <-.
  repeat split.
Qed.

Lemma drain_events_seen (s : Recording) :
  events_seen (drain_events s) = events_seen s
  /\ depth_seen (drain_events s) = depth_seen s
  /\ rgb_seen (drain_events s) = rgb_seen s.
Proof.
  unfold drain_events, events_seen, depth_seen, rgb_seen.
  destruct (ego_vehicle.dvs_queue (ego s)) as [|m q] eqn:E.
  - rewrite E. auto.
  - cbn. rewrite <- app_assoc. auto.
Qed.

Lemma drain_depth_seen (s : Recording) :
  events_seen (drain_depth s) = events_seen s
  /\ depth_seen (drain_depth s) = depth_seen s
  /\ rgb_seen (drain_depth s) = rgb_seen s.
Proof.
  unfold drain_depth, events_seen, depth_seen, rgb_seen.
  destruct (ego_vehicle.depth_queue (ego s)) as [|m q] eqn:E.
  - rewrite E. auto.
  - cbn. rewrite <- app_assoc. auto.
Qed.

Lemma drain_rgb_seen (s : Recording) :
  events_seen (drain_rgb s) = events_seen s
  /\ depth_seen (drain_rgb s) = depth_seen s
  /\ rgb_seen (drain_rgb s) = rgb_seen s.
Proof.
  unfold drain_rgb, events_seen, depth_seen, rgb_seen.
  destruct (ego_vehicle.rgb_queue (ego s)) as [|m q] eqn:E.
  - rewrite E. auto.
  - cbn. rewrite <- app_assoc. auto.
Qed.

Lemma deliver_seen (d : Delivery) (s : Recording) :
  events_seen (with_ego s (deliver d (ego s)))
  = events_seen s ++ List.map stamp (to_dvs d)
  /\ depth_seen (with_ego s (deliver d (ego s)))
     = depth_seen s ++ List.map stamp_depth (to_depth d)
  /\ rgb_seen (with_ego s (deliver d (ego s)))
     = rgb_seen s ++ List.map stamp (to_rgb d).
Proof.
  unfold events_seen, depth_seen, rgb_seen. cbn.
  rewrite !map_app, !app_assoc. auto.
Qed.

(** One tick: each of the three modalities gains what the tick delivers, in
    order, behind what was already there. *)
Lemma record_tick_seen (args : Args) (keep : Z) (w : World) (k : nat)
    (s s' : Recording) :
  record_tick args keep w k s = inr s' ->
  events_seen s' = events_seen s ++ List.map stamp (delivered to_dvs w k 1)
  /\ depth_seen s'
     = depth_seen s ++ List.map stamp_depth (delivered to_depth w k 1)
  /\ rgb_seen s' = rgb_seen s ++ List.map stamp (delivered to_rgb w k 1).
Proof.
  unfold record_tick, drain, delivered. intros H. cbn [seq flat_map].
  destruct (tick w k) as [x|d]; [discriminate|]. rewrite !app_nil_r.
  destruct (drain_lidar _ _ _) as [x|s1] eqn:E; [discriminate|].
  injection H as <-.
  destruct (drain_lidar_others _ _ _ _ E) as (L1 & L2 & L3 & _).
  destruct (drain_rgb_seen s1) as (R1 & R2 & R3).
  destruct (drain_depth_seen (drain_events (with_ego s (deliver d (ego s)))))
    as (D1 & D2 & D3).
  destruct (drain_events_seen (with_ego s (deliver d (ego s))))
    as (E1 & E2 & E3).
  destruct (deliver_seen d s) as (W1 & W2 & W3).
  rewrite R1, R2, R3, L1, L2, L3, D1, D2, D3, E1, E2, E3. auto.
Qed.

Lemma record_loop_seen (args : Args) (keep : Z) (w : World) :
  forall n k s s',
    record_loop args keep w n k s = inr s' ->
    events_seen s' = events_seen s ++ List.map stamp (delivered to_dvs w k n)
    /\ depth_seen s'
       = depth_seen s ++ List.map stamp_depth (delivered to_depth w k n)
    /\ rgb_seen s' = rgb_seen s ++ List.map stamp (delivered to_rgb w k n).
Proof.
  induction n as [|n IH]; intros k s s' H; cbn [record_loop] in H.
  - injection H as <-. cbn. rewrite !app_nil_r. auto.
  - destruct (record_tick args keep w k s) as [x|s1] eqn:E; [discriminate|].
    destruct (IH _ _ _ H) as (I1 & I2 & I3).
    destruct (record_tick_seen _ _ _ _ _ _ E) as (T1 & T2 & T3).
    rewrite I1, I2, I3, T1, T2, T3.
    rewrite (delivered_succ to_dvs w k n), (delivered_succ to_depth w k n),
      (delivered_succ to_rgb w k n), !map_app, !app_assoc.
    auto.
Qed.

Lemma drain_lidar_rgb_queue (args : Args) (keep : Z) (s s' : Recording) :
  drain_lidar args keep s = inr s' ->
  ego_vehicle.rgb_queue (ego s') = ego_vehicle.rgb_queue (ego s).
Proof.
  unfold drain_lidar. intros H.
  destruct (_ <=? _)%nat; [|injection H as <-; reflexivity].
  destruct (mod_is_zero _ _); [discriminate|]. injection H as <-.
  reflexivity.
Qed.

(** One tick, seen from each of the three modalities: the queue receives
    what the tick delivers, and its first reading moves to the buffer. *)
Lemma record_tick_take_one (args : Args) (keep : Z) (w : World) (k : nat)
    (s s' : Recording) (d : Delivery) :
  tick w k = inr d ->
  record_tick args keep w k s = inr s' ->
  (events_queue s', ego_vehicle.dvs_queue (ego s'))
  = take_one stamp (events_queue s) (ego_vehicle.dvs_queue (ego s) ++ to_dvs d)
  /\ (depth_images_queue s', ego_vehicle.depth_queue (ego s'))
     = take_one stamp_depth (depth_images_queue s)
         (ego_vehicle.depth_queue (ego s) ++ to_depth d)
  /\ (rgb_images_queue s', ego_vehicle.rgb_queue (ego s'))
     = take_one stamp (rgb_images_queue s)
         (ego_vehicle.rgb_queue (ego s) ++ to_rgb d).
Proof.
  unfold record_tick, drain. intros T H. rewrite T in H.
  destruct (drain_lidar _ _ _) as [x|s1] eqn:E; [discriminate|].
  injection H as <-.
  destruct (drain_lidar_others _ _ _ _ E) as (_ & _ & _ & B1 & B2 & B3 & Q1 & Q2).
  pose proof (drain_lidar_rgb_queue _ _ _ _ E) as Q3. clear E.
  destruct s as [e qe qd ql qr c mg].
  destruct e as [v dv dp li rg pd q1 q2 q3 q4].
  unfold with_ego, deliver, drain_depth, drain_events in B1, B2, B3, Q1, Q2, Q3.
  cbn [ego ego_vehicle.with_queues ego_vehicle.dvs_queue ego_vehicle.depth_queue
       ego_vehicle.lidar_queue ego_vehicle.rgb_queue events_queue
       depth_images_queue lidar_clouds_queue rgb_images_queue
       current_lidar_idx merged] in *.
  unfold drain_rgb. rewrite Q3, B3.
  destruct (q1 ++ to_dvs d) as [|m1 l1];
    cbn [ego ego_vehicle.with_queues ego_vehicle.dvs_queue
         ego_vehicle.depth_queue ego_vehicle.lidar_queue ego_vehicle.rgb_queue
         events_queue depth_images_queue lidar_clouds_queue rgb_images_queue
         current_lidar_idx merged] in *;
    destruct (q2 ++ to_depth d) as [|m2 l2];
    cbn [ego ego_vehicle.with_queues ego_vehicle.dvs_queue
         ego_vehicle.depth_queue ego_vehicle.lidar_queue ego_vehicle.rgb_queue
         events_queue depth_images_queue lidar_clouds_queue rgb_images_queue
         current_lidar_idx merged] in *;
    destruct (q4 ++ to_rgb d) as [|m4 l4];
    cbn [ego ego_vehicle.with_queues ego_vehicle.dvs_queue
         ego_vehicle.depth_queue ego_vehicle.lidar_queue ego_vehicle.rgb_queue
         events_queue depth_images_queue lidar_clouds_queue rgb_images_queue
         current_lidar_idx merged take_one];
    rewrite ?B1, ?B2, ?B3, ?Q1, ?Q2, ?Q3; auto.
Qed.

Lemma take_one_length {A B : Type} (f : A -> B) (buf : list B) (q : list A) :
  (length (fst (take_one f buf q)) <= S (length buf))%nat.
Proof.
  destruct q; cbn; [lia|]. rewrite length_app. cbn. lia.
Qed.

Lemma record_loop_buffers_le (args : Args) (keep : Z) (w : World) :
  forall n k s s',
    record_loop args keep w n k s = inr s' ->
    (length (events_queue s') <= length (events_queue s) + n)%nat
    /\ (length (depth_images_queue s') <= length (depth_images_queue s) + n)%nat
    /\ (length (rgb_images_queue s') <= length (rgb_images_queue s) + n)%nat.
Proof.
  induction n as [|n IH]; intros k s s' H; cbn [record_loop] in H.
  - injection H as <-. lia.
  - destruct (record_tick args keep w k s) as [x|s1] eqn:E; [discriminate|].
    destruct (IH _ _ _ H) as (I1 & I2 & I3).
    assert (T : exists d, tick w k = inr d).
    { unfold record_tick in E. destruct (tick w k); [discriminate|eauto]. }
    destruct T as (d & T).
    destruct (record_tick_take_one _ _ _ _ _ _ _ T E) as (T1 & T2 & T3).
    apply (f_equal fst) in T1, T2, T3. cbn [fst] in T1, T2, T3.
    pose proof (take_one_length stamp (events_queue s)
                  (ego_vehicle.dvs_queue (ego s) ++ to_dvs d)).
    pose proof (take_one_length stamp_depth (depth_images_queue s)
                  (ego_vehicle.depth_queue (ego s) ++ to_depth d)).
    pose proof (take_one_length stamp (rgb_images_queue s)
                  (ego_vehicle.rgb_queue (ego s) ++ to_rgb d)).
    rewrite <- T1 in *. rewrite <- T2 in *. rewrite <- T3 in *. lia.
Qed.

Lemma kept_from_le {A : Type} (keep : Z) (l : list A) :
  forall c, (length (kept_from keep c l) <= length l)%nat.
Proof.
  induction l as [|x l IH]; intros c; cbn; [lia|].
  destruct (c mod keep =? 0); cbn; specialize (IH (c + 1)); lia.
Qed.

Lemma ascending_app_l (l1 l2 : list simtime) :
  ascending (l1 ++ l2) -> ascending l1.
Proof.
  induction l1 as [|t l1 IH]; cbn [app ascending]; [auto|].
  intros [H1 H2]. split; [|auto].
  destruct l1; [exact I|exact H1].
Qed.

Lemma map_snd_stamp {P : Type} (l : list (Measurement P)) :
  List.map snd (List.map stamp l) = List.map timestamp l.
Proof. rewrite map_map. reflexivity. Qed.

Lemma map_snd_stamp_depth (l : list (Measurement (list Pixel))) :
  List.map snd (List.map stamp_depth l) = List.map timestamp l.
Proof. rewrite map_map. reflexivity. Qed.

(** The recording variables of a session that reached the end of its
    recording loop, related to the readings of the recorded ticks. *)
Lemma session_seen (args : Args) (w : World) (r : Registry) (s : Recording) :
  recorded (session args w r) = Some s ->
  events_seen s
  = List.map stamp (delivered to_dvs w (S (discarded_ticks args))
                      (recorded_ticks args))
  /\ depth_seen s
     = List.map stamp_depth
         (delivered to_depth w (S (discarded_ticks args))
            (recorded_ticks args))
  /\ rgb_seen s
     = List.map stamp (delivered to_rgb w (S (discarded_ticks args))
                         (recorded_ticks args)).
Proof.
  intros R.
  destruct (RecordingSession.session_recorded _ _ _ _ R)
    as (keep & d0 & e & _ & _ & _ & L).
  apply record_loop_seen in L. exact L.
Qed.

(** X1. The events, depth images and color images are recorded in the
    order the sensors delivered them during the recorded ticks, without gap
    or repetition: what a session has recorded of a modality, followed by
    what is still in the queue of its sensor when the loop ends, is the
    sequence of the readings delivered during the recorded ticks. *)
Theorem X1_streams_in_delivery_order
    (args : Args) (w : World) (r : Registry) (s : Recording) :
  recorded (session args w r) = Some s ->
  events_queue s ++ List.map stamp (ego_vehicle.dvs_queue (ego s))
  = List.map stamp (delivered to_dvs w (S (discarded_ticks args))
                      (recorded_ticks args))
  /\ depth_images_queue s
     ++ List.map stamp_depth (ego_vehicle.depth_queue (ego s))
     = List.map stamp_depth
         (delivered to_depth w (S (discarded_ticks args))
            (recorded_ticks args))
  /\ rgb_images_queue s ++ List.map stamp (ego_vehicle.rgb_queue (ego s))
     = List.map stamp (delivered to_rgb w (S (discarded_ticks args))
                         (recorded_ticks args)).
Proof. apply session_seen. Qed.

(** X1 on the short session in the steady world. *)
Lemma X1_streams_in_delivery_order_witness :
  exists s,
    recorded (session short_args steady_world sample_registry) = Some s
    /\ events_queue s ++ List.map stamp (ego_vehicle.dvs_queue (ego s))
       = List.map stamp (delivered to_dvs steady_world 3 40).
Proof.
  destruct (recorded (session short_args steady_world sample_registry))
    as [s|] eqn:E.
  - exists s. split; [reflexivity|].
    apply (X1_streams_in_delivery_order _ _ _ _ E).
  - vm_compute in E. discriminate.
Defined.

(** X2. No sequence grows by more than one entry per tick: after a session
    each of the four recorded sequences has at most [ticks_to_record]
    entries, whatever the sensors delivered. *)
Theorem X2_at_most_one_entry_per_tick
    (args : Args) (w : World) (r : Registry) (s : Recording) :
  recorded (session args w r) = Some s ->
  (length (events_queue s) <= recorded_ticks args)%nat
  /\ (length (depth_images_queue s) <= recorded_ticks args)%nat
  /\ (length (rgb_images_queue s) <= recorded_ticks args)%nat
  /\ (length (lidar_clouds_queue s) <= recorded_ticks args)%nat.
Proof.
  intros R.
  destruct (RecordingSession.session_recorded _ _ _ _ R)
    as (keep & d0 & e & _ & _ & _ & L).
  destruct (record_loop_buffers_le _ _ _ _ _ _ _ L) as (B1 & B2 & B3).
  destruct (RecordingSession.session_decimated _ _ _ _ R) as (keep' & _ & D1 & _).
  pose proof (RecordingSession.record_loop_merged_le _ _ _ _ _ _ _ L) as M.
  cbn in B1, B2, B3, M.
  repeat split; try assumption.
  rewrite D1. pose proof (kept_from_le keep' (merged s) 0). lia.
Qed.

(** X2 on the short session in the Pandora world, which delivers three
    LiDAR readings per tick. *)
Lemma X2_at_most_one_entry_per_tick_witness :
  exists s,
    recorded (session pandora_args pandora_world sample_registry) = Some s
    /\ (length (events_queue s) <= 40)%nat.
Proof.
  destruct (recorded (session pandora_args pandora_world sample_registry))
    as [s|] eqn:E.
  - exists s. split; [reflexivity|].
    apply (X2_at_most_one_entry_per_tick _ _ _ _ E).
  - vm_compute in E. discriminate.
Defined.

(** X3. Recording keeps time stamps in order: when the readings a sensor
    delivers during the recorded ticks carry non-decreasing time stamps, so
    does the sequence of that modality in the archive written. *)
Theorem X3_archive_timestamps_ascending
    (args : Args) (w : World) (r : Registry) (a : Archive) :
  saved_archive (session args w r) = Some a ->
  (ascending (List.map timestamp
                (delivered to_dvs w (S (discarded_ticks args))
                   (recorded_ticks args))) ->
   ascending (List.map snd (events a)))
  /\ (ascending (List.map timestamp
                   (delivered to_depth w (S (discarded_ticks args))
                      (recorded_ticks args))) ->
      ascending (List.map snd (depth_images a)))
  /\ (ascending (List.map timestamp
                   (delivered to_rgb w (S (discarded_ticks args))
                      (recorded_ticks args))) ->
      ascending (List.map snd (rgb_images a))).
Proof.
  intros A.
  destruct (RecordingSession.session_saved _ _ _ _ A) as (_ & s & R & ->).
  destruct (session_seen _ _ _ _ R) as (S1 & S2 & S3).
  unfold events_seen, depth_seen, rgb_seen in *.
  cbn [archive_of events depth_images rgb_images].
  repeat split; intros H.
  - rewrite <- map_snd_stamp, <- S1, map_app in H.
    apply (ascending_app_l _ _ H).
  - rewrite <- map_snd_stamp_depth, <- S2, map_app in H.
    apply (ascending_app_l _ _ H).
  - rewrite <- map_snd_stamp, <- S3, map_app in H.
    apply (ascending_app_l _ _ H).
Qed.

(** X3 on the short session in the steady world, whose readings are
    stamped with the number of their tick. *)
Lemma X3_archive_timestamps_ascending_witness :
  exists a,
    saved_archive (session short_args steady_world sample_registry) = Some a
    /\ ascending (List.map snd (events a)).
Proof.
  destruct (saved_archive (session short_args steady_world sample_registry))
    as [a|] eqn:E.
  - exists a. split; [reflexivity|].
    apply (X3_archive_timestamps_ascending _ _ _ _ E).
    vm_compute. repeat split; discriminate.
  - vm_compute in E. discriminate.
Defined.

End RecordingStreams.

(** ** How a session ends *)

Module SessionOutcomes.

Import generate_sequence_args generate_sequence recording_streams.
Import RecordingSession.

(** X4. When writing the archive raises, the exception leaves [main] after
    the teardown: no row is appended to the index file and no archive is
    counted as written. *)
Theorem X4_archive_write_failure
    (args : Args) (w : World) (r : Registry) (s : Recording) (x : exn) :
  recorded (session args w r) = Some s ->
  savez_raises w = Some x ->
  raised (session args w r) = Some x
  /\ saved_archive (session args w r) = None
  /\ log (session args w r)
     = flat_map ai_pedestrian.start_controller (pedestrians r) ++ teardown r.
Proof.
  session_cases args w r; find_savez r; intros H1 H2; try discriminate.
  injection H2 as <-. auto.
Qed.

(** X4 in the steady world with a disk that cannot be written. *)
Lemma X4_archive_write_failure_witness :
  raised (session short_args no_disk_world sample_registry) = Some (Fault 28)
  /\ saved_archive (session short_args no_disk_world sample_registry) = None.
Proof.
  destruct (recorded (session short_args no_disk_world sample_registry))
    as [s|] eqn:E.
  - destruct (X4_archive_write_failure short_args no_disk_world sample_registry
                s (Fault 28) E eq_refl) as (H1 & H2 & _).
    split; assumption.
  - vm_compute in E. discriminate.
Defined.

(** A zero point-cloud rate makes the floor division of the two rates
    raise before the [try] block is entered, unless a tick count has already
    raised there. *)
Lemma session_zero_rate (args : Args) (w : World) (r : Registry) :
  (lidar_hz args == 0)%Q ->
  exists x, session args w r = failed x.
Proof.
  intros H. unfold session, keep_lidar_every_x_idx, floordiv.
  apply Qeq_bool_iff in H. rewrite H.
  destruct (ticks_to_discard args); [eauto|].
  destruct (ticks_to_record args); eauto.
Qed.

(** *** Sessions that end normally *)

(** X6. With the preview off, tick counts that can be computed, and a
    point-cloud rate that is positive and not above the tick rate, in a
    world whose ticks all return and whose files can be written, a session
    ends normally: it starts the controllers of the pedestrians, writes the
    archive made of the four recorded sequences, appends the row (base name
    of the archive, number of point clouds recorded, map) and tears down, in
    this order. *)
Theorem X6_session_ends_normally
    (args : Args) (w : World) (r : Registry) (nd nr : Z) :
  preview args = false ->
  ticks_to_discard args = inr nd ->
  ticks_to_record args = inr nr ->
  (0 < lidar_hz args)%Q -> (lidar_hz args <= hz args)%Q ->
  calm w -> savez_raises w = None -> csv_raises w = None ->
  raised (session args w r) = None
  /\ exists s,
       recorded (session args w r) = Some s
       /\ log (session args w r)
          = flat_map ai_pedestrian.start_controller (pedestrians r)
            ++ [np_savez (compressed args) (output_file args) (archive_of s);
                csv_writerow (last_field (output_file args))
                  (length (lidar_clouds_queue s)) (map args)]
            ++ teardown r.
Proof.
  intros _ ND NR H0 H1 C HS HC.
  destruct (floordiv_at_least_one _ _ H0 H1) as (keep & K & G).
  destruct (C 0%nat) as (d0 & T0).
  destruct (discard_loop_calm w (range_len nd) 1
              (deliver d0 (ego_vehicle_ r))) as (e & D).
  { intros j _. apply C. }
  destruct (record_loop_returns args keep w ltac:(lia)
              (range_len nr) (1 + range_len nd)
              (start_recording (ego_vehicle.clear_sensor_queues e)))
    as (s & L).
  { intros j _. apply C. }
  unfold session, try_block. unfold keep_lidar_every_x_idx.
  rewrite ND, NR, K, T0, D, L, HS, HC. cbn [log raised recorded].
  split; [reflexivity|]. exists s. split; [reflexivity|].
  rewrite <- !app_assoc. reflexivity.
Qed.

(** X6 on the short session in the steady world. *)
Lemma X6_session_ends_normally_witness :
  raised (session short_args steady_world sample_registry) = None.
Proof.
  destruct (X6_session_ends_normally short_args steady_world sample_registry
              2 40) as (A & _).
  - reflexivity.
  - reflexivity.
  - reflexivity.
  - reflexivity.
  - cbn. discriminate.
  - intros k. exists (steady_delivery k). reflexivity.
  - reflexivity.
  - reflexivity.
  - exact A.
Defined.

(** *** The sign of a tick count *)

Lemma pow2_pos (e : Z) : (0 < pow2 e)%Q.
Proof.
  unfold pow2. destruct (0 <=? e) eqn:E.
  - apply Z.leb_le in E. change 0%Q with (inject_Z 0). rewrite <- Zlt_Qlt.
    apply Z.pow_pos_nonneg; lia.
  - apply Z.leb_gt in E. apply Qinv_lt_0_compat.
    change 0%Q with (inject_Z 0). rewrite <- Zlt_Qlt.
    apply Z.pow_pos_nonneg; lia.
Qed.

Lemma round_half_even_nonpos (q : Q) :
  (q <= 0)%Q -> round_half_even q <= 0.
Proof.
  intros H. unfold round_half_even.
  assert (F : Qfloor q <= 0) by (apply (Qfloor_resp_le q 0); exact H).
  assert (P : (0 < q - inject_Z (Qfloor q))%Q -> Qfloor q <= - 1).
  { intros G. destruct (Z_le_gt_dec (Qfloor q) (- 1)) as [L|L]; [exact L|].
    exfalso. assert (Z0 : Qfloor q = 0) by lia. rewrite Z0 in G.
    apply (Qlt_irrefl 0). apply Qlt_le_trans with q; [|exact H].
    unfold Qminus in G. rewrite Qplus_0_r in G. exact G. }
  destruct (q - inject_Z (Qfloor q) ?= 1 # 2)%Q eqn:E.
  - destruct (Z.even (Qfloor q)); [exact F|].
    apply Qeq_alt in E. assert (G : Qfloor q <= - 1); [|lia].
    apply P. rewrite E. reflexivity.
  - exact F.
  - apply Qgt_alt in E. assert (G : Qfloor q <= - 1); [|lia].
    apply P. apply Qlt_trans with (1 # 2)%Q; [reflexivity|exact E].
Qed.

Lemma int_nonpos (q : Q) (n : Z) :
  (q <= 0)%Q -> int (finite q) = inr n -> n <= 0.
Proof.
  intros H E. unfold int in E. injection E as <-.
  destruct (Qle_bool 0 q).
  - apply (Qfloor_resp_le _ 0). exact H.
  - apply (Qceiling_resp_le _ 0). exact H.
Qed.

(** Rounding a product to a double keeps its sign: a product that is zero
    or negative gives a tick count that is zero or negative. *)
Lemma int_fmul_nonpos (a b : Q) (n : Z) :
  (a * b <= 0)%Q -> int (fmul a b) = inr n -> n <= 0.
Proof.
  intros H. unfold fmul, binary64.
  destruct (Qeq_bool (a * b) 0).
  { apply int_nonpos. apply Qle_refl. }
  set (e := Z.max (ilog2 (a * b) - 52) (- 1074)).
  set (m := round_half_even (a * b / pow2 e)).
  assert (M : m <= 0).
  { apply round_half_even_nonpos.
    apply Qle_shift_div_r; [apply pow2_pos|]. rewrite Qmult_0_l. exact H. }
  assert (Y : (inject_Z m * pow2 e <= 0)%Q).
  { rewrite <- (Qmult_0_l (pow2 e)).
    apply Qmult_le_compat_r; [|apply Qlt_le_weak, pow2_pos].
    change 0%Q with (inject_Z 0). rewrite <- Zle_Qle. exact M. }
  cbv zeta. destruct (Qle_bool _ _); [discriminate|].
  apply int_nonpos. exact Y.
Qed.

(** X7. A zero or negative duration is not refused: when its tick count
    can be computed it is zero or negative, the recording loop is not
    entered, and after the warm-up the session writes an archive of four
    empty sequences and appends a row that counts 0 point clouds. *)
Theorem X7_no_tick_to_record
    (args : Args) (w : World) (r : Registry) (nd nr keep : Z) :
  (duration args * hz args <= 0)%Q ->
  ticks_to_discard args = inr nd ->
  ticks_to_record args = inr nr ->
  keep_lidar_every_x_idx args = inr keep ->
  calm_warmup w (range_len nd) ->
  savez_raises w = None ->
  nr <= 0
  /\ saved_archive (session args w r)
     = Some {| events := []; depth_images := []; lidar_clouds := [];
               rgb_images := [] |}
  /\ (csv_raises w = None ->
      raised (session args w r) = None
      /\ In (csv_writerow (last_field (output_file args)) 0 (map args))
           (log (session args w r))).
Proof.
  intros HD ND NR K C HS.
  assert (N0 : nr <= 0) by (apply (int_fmul_nonpos _ _ _ HD); exact NR).
  assert (N : range_len nr = 0%nat) by (unfold range_len; lia).
  destruct (C 0%nat ltac:(lia)) as (d0 & T0).
  destruct (discard_loop_calm w (range_len nd) 1
              (deliver d0 (ego_vehicle_ r))) as (e & D).
  { intros j Hj. apply C. lia. }
  assert (R : recorded (session args w r)
              = Some (start_recording (ego_vehicle.clear_sensor_queues e))).
  { apply (session_records _ _ _ nd nr keep d0 e); auto.
    rewrite N. reflexivity. }
  split; [exact N0|].
  split; [apply (session_saves _ _ _ _ R HS)|].
  intros HC. unfold session, try_block.
  rewrite ND, NR, K, T0, D, N, HS, HC. cbn [record_loop log raised recorded].
  split; [reflexivity|].
  rewrite !in_app_iff. left. right. cbn. auto.
Qed.

(** X7 on the short session asked for with a negative duration. *)
Lemma X7_no_tick_to_record_witness :
  saved_archive (session no_duration_args steady_world sample_registry)
  = Some {| events := []; depth_images := []; lidar_clouds := [];
            rgb_images := [] |}.
Proof.
  destruct (X7_no_tick_to_record no_duration_args steady_world sample_registry
              2 (- 200) 20) as (_ & A & _).
  - cbn. discriminate.
  - reflexivity.
  - reflexivity.
  - reflexivity.
  - intros k _. exists (steady_delivery k). reflexivity.
  - reflexivity.
  - exact A.
Defined.

End SessionOutcomes.

(** ** From the session to the replay, and the LiDAR in Pandora mode *)

Module SessionToReplay.

Import generate_sequence_args generate_sequence recording_streams.

Lemma take_one_paired {A B A' B' : Type} (f : A -> B) (g : A' -> B')
    (buf : list B) (buf' : list B') (q : list A) (q' : list A') :
  length buf = length buf' -> length q = length q' ->
  length (fst (take_one f buf q)) = length (fst (take_one g buf' q'))
  /\ length (snd (take_one f buf q)) = length (snd (take_one g buf' q')).
Proof.
  intros H1 H2. destruct q, q'; try discriminate; cbn.
  - auto.
  - rewrite !length_app, H1. cbn in H2. split; [reflexivity|lia].
Qed.

(** As long as every tick delivers as many event arrays as depth images,
    the two buffers, and the two queues, keep the same length. *)
Lemma record_loop_paired (args : Args) (keep : Z) (w : World) :
  forall n k s s',
    paired_from w k ->
    length (events_queue s) = length (depth_images_queue s) ->
    length (ego_vehicle.dvs_queue (ego s))
    = length (ego_vehicle.depth_queue (ego s)) ->
    record_loop args keep w n k s = inr s' ->
    length (events_queue s') = length (depth_images_queue s').
Proof.
  induction n as [|n IH]; intros k s s' P B Q H; cbn [record_loop] in H.
  - injection H as <-. exact B.
  - destruct (record_tick args keep w k s) as [x|s1] eqn:E; [discriminate|].
    assert (T : exists d, tick w k = inr d).
    { unfold record_tick in E. destruct (tick w k); [discriminate|eauto]. }
    destruct T as (d & T).
    destruct (RecordingStreams.record_tick_take_one _ _ _ _ _ _ _ T E)
      as (T1 & T2 & _).
    destruct (take_one_paired stamp stamp_depth (events_queue s)
                (depth_images_queue s)
                (ego_vehicle.dvs_queue (ego s) ++ to_dvs d)
                (ego_vehicle.depth_queue (ego s) ++ to_depth d) B) as (L1 & L2).
    { rewrite !length_app, Q, (P k d (Nat.le_refl k) T). reflexivity. }
    rewrite <- T1, <- T2 in L1, L2. cbn [fst snd] in L1, L2.
    apply (IH (S k) s1 s'); auto.
    intros j d' Hj. apply P. lia.
Qed.

Lemma delivered_in {A : Type} (f : Delivery -> list A) (w : World) (m : A) :
  forall n k,
    In m (delivered f w k n) ->
    exists j d, (k <= j < k + n)%nat /\ tick w j = inr d /\ In m (f d).
Proof.
  unfold delivered. intros n k I. apply in_flat_map in I.
  destruct I as (j & Hj & I). apply in_seq in Hj.
  destruct (tick w j) as [x|d] eqn:T; [destruct I|].
  exists j, d. auto.
Qed.

(** X8. From recording to replay: when every recorded tick delivers as
    many event arrays as depth images, and events that index the image of
    the replay, the archive a session writes holds as many depth images as
    event arrays, its events index the image of the replay, and the replay
    of this archive, Escape not being pressed, goes through all its
    reference entries and ends normally. *)
Theorem X8_written_archive_replays
    (args : Args) (w : World) (r : Registry) (a : Archive) (W H : Z)
    (keys : nat -> Z) :
  saved_archive (session args w r) = Some a ->
  paired_from w (S (discarded_ticks args)) ->
  events_fit w (S (discarded_ticks args)) W H ->
  (forall k, (k < length (events a))%nat -> keys k <> 27) ->
  length (events a) = length (depth_images a)
  /\ (forall e ts, In (e, ts) (events a) -> visualize_recording.inside W H e)
  /\ visualize_recording.completes a (visualize_recording.main W H a keys).
Proof.
  intros A P F K.
  destruct (RecordingSession.session_saved _ _ _ _ A) as (_ & s & R & ->).
  destruct (RecordingSession.session_recorded _ _ _ _ R)
    as (keep & d0 & e & _ & _ & _ & L).
  assert (E : length (events_queue s) = length (depth_images_queue s))
    by (apply (record_loop_paired args keep w
                 (recorded_ticks args)
                 (S (discarded_ticks args))
                 (start_recording (ego_vehicle.clear_sensor_queues e)) s P);
        [reflexivity|reflexivity|exact L]).
  assert (I : forall ev ts, In (ev, ts) (events_queue s) ->
                            visualize_recording.inside W H ev).
  { intros ev ts Hin.
    destruct (RecordingStreams.session_seen _ _ _ _ R) as (S1 & _).
    unfold events_seen in S1.
    assert (Hin' : In (ev, ts)
                     (List.map stamp
                        (delivered to_dvs w (S (discarded_ticks args))
                           (recorded_ticks args))))
      by (rewrite <- S1; apply in_or_app; left; exact Hin).
    apply in_map_iff in Hin'. destruct Hin' as (m & M & Hm).
    destruct (delivered_in _ _ _ _ _ Hm) as (j & d & Hj & T & Hd).
    unfold stamp in M. injection M as <- _.
    apply (F j d m); [lia|exact T|exact Hd]. }
  split; [exact E|]. split; [exact I|].
  unfold visualize_recording.completes, visualize_recording.main.
  apply ReplayMerger.replay_loop_completes.
  - exact I.
  - apply Nat.eq_le_incl. exact E.
  - intros k Hk. apply K. apply Hk.
Qed.

(** X8 on the short session in the steady world, replayed at 1x1, the
    size of its images. *)
Lemma X8_written_archive_replays_witness :
  exists a,
    saved_archive (session short_args steady_world sample_registry) = Some a
    /\ visualize_recording.completes a
         (visualize_recording.main 1 1 a visualize_recording.no_key).
Proof.
  destruct (saved_archive (session short_args steady_world sample_registry))
    as [a|] eqn:E.
  - exists a. split; [reflexivity|].
    destruct (X8_written_archive_replays short_args steady_world
                sample_registry a 1 1 visualize_recording.no_key E)
      as (_ & _ & C).
    + intros j d _ T. injection T as <-. reflexivity.
    + intros j d m _ T. injection T as <-. intros [<-|[]].
      eexists. reflexivity.
    + intros k _. discriminate.
    + exact C.
  - vm_compute in E. discriminate.
Defined.



Lemma record_loop_aligned (args : Args) (keep : Z) (w : World) :
  lidar_is_pandora args = true ->
  forall n k s s',
    three_per_tick w k n ->
    ego_vehicle.lidar_queue (ego s) = [] ->
    record_loop args keep w n k s = inr s' ->
    merged s' = merged s ++ List.map (cloud_of_tick w) (seq k n)
    /\ ego_vehicle.lidar_queue (ego s') = [].
Proof.
  intros HP. induction n as [|n IH]; intros k s s' T Q H;
    cbn [record_loop] in H.
  - injection H as <-. cbn. rewrite app_nil_r. auto.
  - destruct (record_tick args keep w k s) as [x|s1] eqn:E; [discriminate|].
    destruct (T k ltac:(lia)) as (d & m1 & m2 & m3 & Tk & Lk).
    assert (S1 : merged s1 = merged s ++ [cloud_of_tick w k]
                 /\ ego_vehicle.lidar_queue (ego s1) = []).
    { unfold record_tick, drain in E. rewrite Tk in E.
      set (s0 := with_ego s (deliver d (ego s))) in *.
      destruct (RecordingSession.drain_events_lidar s0) as (_ & E2 & _ & E4).
      destruct (RecordingSession.drain_depth_lidar (drain_events s0))
        as (_ & D2 & _ & D4).
      assert (Q0 : ego_vehicle.lidar_queue
                     (ego (drain_depth (drain_events s0))) = [m1; m2; m3]).
      { rewrite D4, E4. subst s0. cbn. rewrite Q, Lk. reflexivity. }
      destruct (drain_lidar _ _ _) as [x|s2] eqn:L; [discriminate|].
      injection E as <-.
      destruct (RecordingSession.drain_rgb_lidar s2) as (_ & R2 & _ & R4).
      rewrite R2, R4. unfold drain_lidar in L. rewrite Q0 in L.
      unfold lidar_subpackets_per_pcl in L. rewrite HP in L. cbn [length Nat.leb] in L.
      destruct (mod_is_zero _ _); [discriminate|]. injection L as <-.
      cbn [merged ego ego_vehicle.with_queues ego_vehicle.lidar_queue].
      rewrite D2, E2. subst s0. cbn [with_ego merged].
      unfold cloud_of_tick. rewrite Tk, Lk. auto. }
    destruct S1 as (M1 & Q1).
    destruct (IH (S k) s1 s') as (M & Q'); auto.
    { intros j Hj. apply T. lia. }
    split; [|exact Q'].
    rewrite M, M1, <- app_assoc. reflexivity.
Qed.

(** X10. In Pandora mode, when every recorded tick delivers exactly three
    LiDAR readings, the clouds stay aligned with the ticks: the loop forms
    one cloud per recorded tick, made of the three readings of that tick in
    the order delivered and stamped as the first of them, and leaves the
    queue empty. *)
Theorem X10_pandora_cloud_per_tick
    (args : Args) (w : World) (r : Registry) (s : Recording) :
  lidar_is_pandora args = true ->
  three_per_tick w (S (discarded_ticks args))
    (recorded_ticks args) ->
  recorded (session args w r) = Some s ->
  merged s
  = List.map (cloud_of_tick w)
      (seq (S (discarded_ticks args))
         (recorded_ticks args))
  /\ ego_vehicle.lidar_queue (ego s) = [].
Proof.
  intros HP T R.
  destruct (RecordingSession.session_recorded _ _ _ _ R)
    as (keep & d0 & e & _ & _ & _ & L).
  apply (record_loop_aligned args keep w HP
           (recorded_ticks args)
           (S (discarded_ticks args))
           (start_recording (ego_vehicle.clear_sensor_queues e)) s T);
    [reflexivity|exact L].
Qed.

(** X10 on the short session in the Pandora world. *)
Lemma X10_pandora_cloud_per_tick_witness :
  exists s,
    recorded (session pandora_args pandora_world sample_registry) = Some s
    /\ merged s = List.map (cloud_of_tick pandora_world) (seq 3 40).
Proof.
  destruct (recorded (session pandora_args pandora_world sample_registry))
    as [s|] eqn:E.
  - exists s. split; [reflexivity|].
    apply (X10_pandora_cloud_per_tick pandora_args pandora_world
             sample_registry s eq_refl); [|exact E].
    intros j _. eexists. eexists. eexists. eexists.
    split; reflexivity.
  - vm_compute in E. discriminate.
Defined.

End SessionToReplay.

(** ** [main] as a whole: spawning, session, teardown *)

Module MainRun.

Import generate_sequence_args generate_sequence generate_sequence_main.

Lemma random_choice_in {A : Type} (seq : list A) (r : nat) (x : A) :
  random_choice seq r = inr x -> In x seq.
Proof.
  unfold random_choice.
  destruct (nth_error seq (r mod length seq)) as [y|] eqn:E; [|discriminate].
  intros H. injection H as <-. apply (nth_error_In _ _ E).
Qed.

Lemma spawn_vehicles_finished (args : Args) (st : Streets) :
  forall fuel k inst k' inst',
    spawn_vehicles args st fuel k inst = Finished k' inst' ->
    exists added,
      inst' = inst ++ added
      /\ (k + length added <= k')%nat
      /\ Forall (spawned_between st k k') added
      /\ (Z.of_nat (length inst) < nvehicles args ->
          Z.of_nat (length inst') = nvehicles args)
      /\ (nvehicles args <= Z.of_nat (length inst) ->
          inst' = inst /\ k' = k).
Proof.
  induction fuel as [|fuel IH]; intros k inst k' inst' H;
    cbn [spawn_vehicles] in H;
    destruct (Z.of_nat (length inst) <? nvehicles args) eqn:C;
    try discriminate.
  1,3: injection H as <- <-; exists []; rewrite app_nil_r;
       apply Z.ltb_ge in C; cbn [length]; repeat split; auto; try lia;
       constructor.
  apply Z.ltb_lt in C.
  destruct (random_choice (spawn_points st) (choice st k)) as [x|t] eqn:R;
    [discriminate|].
  apply random_choice_in in R.
  destruct (try_spawn_actor st k t) as [a|] eqn:T; cbn [ai_vehicle.init] in H.
  - destruct (IH _ _ _ _ H) as (added & E & N & F & L & G).
    exists ({| ai_vehicle.vehicle := a |} :: added).
    rewrite <- app_assoc in E. rewrite length_app in L, G. cbn in L, G |- *.
    split; [exact E|]. split; [lia|]. split; [|split].
    + constructor.
      * exists k, t. cbn. repeat split; auto. lia.
      * eapply Forall_impl; [|exact F].
        intros v (j & t' & Hj & Ht & Hs). exists j, t'.
        repeat split; auto; lia.
    + intros _.
      destruct (Z_lt_le_dec (Z.of_nat (length inst + 1)) (nvehicles args)) as [Y|Y].
      * apply L. exact Y.
      * destruct (G Y) as (-> & _). rewrite length_app. cbn. lia.
    + lia.
  - destruct (IH _ _ _ _ H) as (added & E & N & F & L & G).
    exists added. split; [exact E|]. split; [lia|]. split; [|split].
    + eapply Forall_impl; [|exact F].
      intros v (j & t' & Hj & Ht & Hs). exists j, t'. repeat split; auto; lia.
    + intros _. apply L. exact C.
    + lia.
Qed.

Lemma spawn_pedestrians_finished (args : Args) (st : Streets) :
  forall fuel k inst k' inst',
    spawn_pedestrians args st fuel k inst = Finished k' inst' ->
    exists added,
      inst' = inst ++ added
      /\ (k + length added <= k')%nat
      /\ Forall (walker_between st k k') added
      /\ (Z.of_nat (length inst) < npedestrians args ->
          Z.of_nat (length inst') = npedestrians args)
      /\ (npedestrians args <= Z.of_nat (length inst) ->
          inst' = inst /\ k' = k).
Proof.
  induction fuel as [|fuel IH]; intros k inst k' inst' H;
    cbn [spawn_pedestrians] in H;
    destruct (Z.of_nat (length inst) <? npedestrians args) eqn:C;
    try discriminate.
  1,3: injection H as <- <-; exists []; rewrite app_nil_r;
       apply Z.ltb_ge in C; cbn [length]; repeat split; auto; try lia;
       constructor.
  apply Z.ltb_lt in C.
  destruct (try_spawn_actor st k (random_location st k)) as [a|] eqn:T;
    cbn [ai_pedestrian.init] in H.
  - destruct (spawn_controller st a) as [x|c] eqn:SC; [discriminate|].
    destruct (IH _ _ _ _ H) as (added & E & N & F & L & G).
    exists ({| ai_pedestrian.pedestrian := a; ai_pedestrian.controller := c |}
            :: added).
    rewrite <- app_assoc in E. rewrite length_app in L, G. cbn in L, G |- *.
    split; [exact E|]. split; [lia|]. split; [|split].
    + constructor.
      * exists k. cbn. repeat split; auto. lia.
      * eapply Forall_impl; [|exact F].
        intros p (j & Hj & Ht & Hs). exists j. repeat split; auto; lia.
    + intros _.
      destruct (Z_lt_le_dec (Z.of_nat (length inst + 1)) (npedestrians args))
        as [Y|Y].
      * apply L. exact Y.
      * destruct (G Y) as (-> & _). rewrite length_app. cbn. lia.
    + lia.
  - destruct (IH _ _ _ _ H) as (added & E & N & F & L & G).
    exists added. split; [exact E|]. split; [lia|]. split; [|split].
    + eapply Forall_impl; [|exact F].
      intros p (j & Hj & Ht & Hs). exists j. repeat split; auto; lia.
    + intros _. apply L. exact C.
    + lia.
Qed.

(** X11. When the loop that spawns the AI vehicles ends, the registry is
    the one it started from followed by the vehicles it registered, each an
    actor returned by a successful [try_spawn_actor] at a spawn point of
    the map, at most one per attempt; it then holds exactly [nvehicles]
    vehicles if it held fewer, and is left untouched, without any attempt,
    if it already held as many. *)
Theorem X11_vehicle_loop_result
    (args : Args) (st : Streets) (fuel k : nat)
    (inst : list ai_vehicle.AIVehicle) (k' : nat)
    (inst' : list ai_vehicle.AIVehicle) :
  spawn_vehicles args st fuel k inst = Finished k' inst' ->
  exists added,
    inst' = inst ++ added
    /\ (k + length added <= k')%nat
    /\ Forall (spawned_between st k k') added
    /\ (Z.of_nat (length inst) < nvehicles args ->
        Z.of_nat (length inst') = nvehicles args)
    /\ (nvehicles args <= Z.of_nat (length inst) ->
        inst' = inst /\ k' = k).
Proof. apply spawn_vehicles_finished. Qed.

(** X11 on the map where the sixth attempt succeeds. *)
Lemma X11_vehicle_loop_result_witness :
  exists added,
    [ {| ai_vehicle.vehicle := 105%nat |} ] = [] ++ added
    /\ (0 + length added <= 6)%nat.
Proof.
  destruct (X11_vehicle_loop_result one_vehicle_args sixth_time_lucky 6 0 []
              6 [ {| ai_vehicle.vehicle := 105%nat |} ] eq_refl)
    as (added & E & N & _).
  exists added. split; assumption.
Defined.

(** X12. When the loop that spawns the AI pedestrians ends, the registry
    is the one it started from followed by the pedestrians it registered,
    at most one per attempt: each is a walker returned by a successful
    [try_spawn_actor] at the location drawn for its attempt, with the
    controller that [spawn_actor] returned for this walker; the registry
    then holds exactly [npedestrians] pedestrians if it held fewer, and is
    left untouched, without any attempt, if it already held as many. *)
Theorem X12_pedestrian_loop_result
    (args : Args) (st : Streets) (fuel k : nat)
    (inst : list ai_pedestrian.AIPedestrian) (k' : nat)
    (inst' : list ai_pedestrian.AIPedestrian) :
  spawn_pedestrians args st fuel k inst = Finished k' inst' ->
  exists added,
    inst' = inst ++ added
    /\ (k + length added <= k')%nat
    /\ Forall (walker_between st k k') added
    /\ (Z.of_nat (length inst) < npedestrians args ->
        Z.of_nat (length inst') = npedestrians args)
    /\ (npedestrians args <= Z.of_nat (length inst) ->
        inst' = inst /\ k' = k).
Proof. apply spawn_pedestrians_finished. Qed.

(** X12 on the map where the sixth attempt succeeds. *)
Lemma X12_pedestrian_loop_result_witness :
  exists added,
    [ {| ai_pedestrian.pedestrian := 105%nat;
         ai_pedestrian.controller := 1105%nat |} ] = [] ++ added
    /\ Forall (walker_between sixth_time_lucky 0 6) added.
Proof.
  destruct (X12_pedestrian_loop_result one_vehicle_args sixth_time_lucky 6 0 []
              6 [ {| ai_pedestrian.pedestrian := 105%nat;
                     ai_pedestrian.controller := 1105%nat |} ] eq_refl)
    as (added & E & _ & F & _).
  exists added. split; assumption.
Defined.

Lemma destroyed_session (args : Args) (w : World) (reg : Registry) :
  ~ (lidar_hz args == 0)%Q ->
  (exists x, session args w reg = failed x)
  \/ destroyed (log (session args w reg)) = teardown_order reg.
Proof.
  intros NZ.
  assert (K : exists keep, keep_lidar_every_x_idx args = inr keep).
  { unfold keep_lidar_every_x_idx, floordiv.
    destruct (Qeq_bool (lidar_hz args) 0) eqn:E; [|eauto].
    apply Qeq_bool_iff in E. contradiction. }
  destruct K as (keep & K).
  destruct (ticks_to_discard args) as [x|nd] eqn:ND.
  { left. exists x. unfold session. rewrite ND. reflexivity. }
  destruct (ticks_to_record args) as [x|nr] eqn:NR.
  { left. exists x. unfold session. rewrite ND, NR. reflexivity. }
  right.
  destruct (RecordingSession.session_log args w reg nd nr keep ND NR K)
    as (pre & L & P).
  rewrite L, RecordingSession.destroyed_app, (RecordingSession.destroyed_none _ P).
  apply RecordingSession.destroyed_teardown.
Qed.

(** X13. [main] destroys exactly what it registered.  A run of [main]
    with a non-zero point-cloud rate either fails before its [try] block,
    and then destroys nothing, or runs the session on a registry that holds
    the ego-vehicle, exactly [nvehicles] AI vehicles and exactly
    [npedestrians] AI pedestrians (none for a negative number), and then,
    however the session ends, destroys every actor of this registry exactly
    once. *)
Theorem X13_main_destroys_what_it_registered
    (args : Args) (setup : Setup) (st : Streets) (w : World) (fuel : nat)
    (o : Outcome) :
  ~ (lidar_hz args == 0)%Q ->
  main args setup st w fuel = Some o ->
  (exists x, o = failed x)
  \/ (exists reg,
        o = session args w reg
        /\ Z.of_nat (length (vehicles reg)) = Z.max 0 (nvehicles args)
        /\ Z.of_nat (length (pedestrians reg)) = Z.max 0 (npedestrians args)
        /\ destroyed (log o) = teardown_order reg
        /\ Permutation (destroyed (log o)) (spawned_actors reg)).
Proof.
  intros NZ H. unfold main in H.
  destruct (load_raises setup); [injection H as <-; eauto|].
  destruct (Qeq_bool (hz args) 0); [injection H as <-; eauto|].
  destruct (configure_raises setup); [injection H as <-; eauto|].
  destruct (random_choice _ _) as [x|t]; [injection H as <-; eauto|].
  destruct (make_ego setup t) as [x|e]; [injection H as <-; eauto|].
  destruct (spawn_vehicles args st fuel 0 []) as [| k vs | x vs] eqn:V;
    [discriminate| |injection H as <-; eauto].
  destruct (spawn_pedestrians args st fuel k []) as [| k' ps | x ps] eqn:P;
    [discriminate| |injection H as <-; eauto].
  injection H as <-.
  destruct (destroyed_session args w
              {| ego_vehicle_ := e; vehicles := vs; pedestrians := ps |} NZ)
    as [F|D]; [left; exact F|right].
  exists {| ego_vehicle_ := e; vehicles := vs; pedestrians := ps |}.
  destruct (spawn_vehicles_finished _ _ _ _ _ _ _ V) as (added & _ & _ & _ & L & G).
  destruct (spawn_pedestrians_finished _ _ _ _ _ _ _ P)
    as (added' & _ & _ & _ & L' & G').
  cbn [length vehicles pedestrians] in *.
  split; [reflexivity|]. split; [|split; [|split]].
  - destruct (Z_lt_le_dec 0 (nvehicles args)) as [Y|Y].
    + rewrite (L Y). lia.
    + destruct (G Y) as (-> & _). cbn. lia.
  - destruct (Z_lt_le_dec 0 (npedestrians args)) as [Y|Y].
    + rewrite (L' Y). lia.
    + destruct (G' Y) as (-> & _). cbn. lia.
  - exact D.
  - rewrite D. apply RecordingSession.teardown_order_permutation.
Qed.

(** X13 on the open map, in the world whose simulator fails at tick 3. *)
Lemma X13_main_destroys_what_it_registered_witness :
  exists o,
    main short_args plain_setup open_streets failing_world 10 = Some o
    /\ ((exists x, o = failed x)
        \/ exists reg, o = session short_args failing_world reg
                       /\ destroyed (log o) = teardown_order reg).
Proof.
  destruct (main short_args plain_setup open_streets failing_world 10)
    as [o|] eqn:E.
  - exists o. split; [reflexivity|].
    destruct (X13_main_destroys_what_it_registered short_args plain_setup
                open_streets failing_world 10 o) as [F|(reg & H1 & _ & _ & H2 & _)].
    + cbn. discriminate.
    + exact E.
    + left. exact F.
    + right. exists reg. split; assumption.
  - vm_compute in E. discriminate.
Defined.

(** X14. A zero point-cloud rate is met only after everything has been
    spawned, outside the [try] block: whatever a run of [main] with such a
    rate has spawned, it ends with an exception and destroys nothing. *)
Theorem X14_main_zero_rate_destroys_nothing
    (args : Args) (setup : Setup) (st : Streets) (w : World) (fuel : nat)
    (o : Outcome) :
  (lidar_hz args == 0)%Q ->
  main args setup st w fuel = Some o ->
  exists x, o = failed x.
Proof.
  intros Z0 H. unfold main in H.
  destruct (load_raises setup); [injection H as <-; eauto|].
  destruct (Qeq_bool (hz args) 0); [injection H as <-; eauto|].
  destruct (configure_raises setup); [injection H as <-; eauto|].
  destruct (random_choice _ _) as [x|t]; [injection H as <-; eauto|].
  destruct (make_ego setup t) as [x|e]; [injection H as <-; eauto|].
  destruct (spawn_vehicles args st fuel 0 []) as [| k vs | x vs];
    [discriminate| |injection H as <-; eauto].
  destruct (spawn_pedestrians args st fuel k []) as [| k' ps | x ps];
    [discriminate| |injection H as <-; eauto].
  injection H as <-.
  apply SessionOutcomes.session_zero_rate. exact Z0.
Qed.

(** X14 on the open map with the zero-rate arguments. *)
Lemma X14_main_zero_rate_destroys_nothing_witness :
  main recording_streams.zero_rate_args plain_setup open_streets steady_world 10
  = Some (failed ZeroDivisionError).
Proof.
  destruct (main recording_streams.zero_rate_args plain_setup open_streets
              steady_world 10) as [o|] eqn:E.
  - destruct (X14_main_zero_rate_destroys_nothing
                recording_streams.zero_rate_args plain_setup open_streets
                steady_world 10 o) as (x & ->).
    + reflexivity.
    + exact E.
    + vm_compute in E. injection E as <-. reflexivity.
  - vm_compute in E. discriminate.
Defined.

End MainRun.

(** ** The blueprints of the ego-vehicle *)

Module EgoBlueprints.

Import generate_sequence_args ego_vehicle_init.

Lemma endswith_spec (s suffix : String.string) :
  endswith s suffix = true <-> exists pre, s = String.append pre suffix.
Proof.
  split.
  - induction s as [|c s IH]; cbn [endswith].
    + destruct (String.eqb _ _) eqn:E; [|discriminate].
      intros _. apply String.eqb_eq in E. exists String.EmptyString.
      exact E.
    + destruct (String.eqb _ _) eqn:E.
      * intros _. apply String.eqb_eq in E. exists String.EmptyString. exact E.
      * intros H. destruct (IH H) as (pre & ->).
        exists (String.String c pre). reflexivity.
  - intros (pre & ->). induction pre as [|c pre IH]; cbn [String.append].
    + destruct suffix; cbn [endswith]; rewrite String.eqb_refl; reflexivity.
    + cbn [endswith]. rewrite IH. destruct (String.eqb _ _); reflexivity.
Qed.

(** X15. The blueprint drawn for the ego-vehicle is a blueprint of the
    library with four wheels whose identifier ends with none of the
    refused suffixes; and the draw raises only [IndexError], only when no
    blueprint of the library qualifies. *)
Theorem X15_ego_blueprint_is_a_car (library : list Blueprint) (r : nat) :
  (forall bp,
     get_random_blueprint library r = inr bp ->
     In bp library
     /\ number_of_wheels bp = 4
     /\ forall suffix, In suffix refused_suffixes ->
                       ~ exists pre, id bp = String.append pre suffix)
  /\ (forall x,
        get_random_blueprint library r = inl x ->
        x = IndexError
        /\ forall bp, In bp library -> number_of_wheels bp = 4 ->
                      exists suffix, In suffix refused_suffixes
                                     /\ endswith (id bp) suffix = true).
Proof.
  unfold get_random_blueprint. split.
  - intros bp H. apply MainRun.random_choice_in in H.
    apply filter_In in H as (H & S). apply filter_In in H as (H & W).
    split; [exact H|]. split; [apply Z.eqb_eq; exact W|].
    intros suffix I E. apply endswith_spec in E.
    apply negb_true_iff in S.
    assert (T : existsb (endswith (id bp)) refused_suffixes = true)
      by (apply existsb_exists; eauto).
    congruence.
  - intros x H.
    set (l := filter _ (filter _ library)) in H.
    destruct l as [|b l'] eqn:L.
    + unfold generate_sequence.random_choice in H.
      rewrite nth_error_nil in H. injection H as <-. split; [reflexivity|].
      intros bp I W.
      destruct (existsb (endswith (id bp)) refused_suffixes) eqn:S;
        [apply existsb_exists in S; exact S|].
      assert (F : In bp l).
      { subst l. apply filter_In. split.
        - apply filter_In. split; [exact I|apply Z.eqb_eq; exact W].
        - rewrite S. reflexivity. }
      rewrite L in F. destruct F.
    + destruct (Spawning.random_choice_some (b :: l') r ltac:(discriminate))
        as (y & Y).
      rewrite Y in H. discriminate.
Qed.

(** X15 on the sample library: a fire truck, a motorbike and a car. *)
Lemma X15_ego_blueprint_is_a_car_witness :
  exists bp,
    get_random_blueprint sample_library 5 = inr bp
    /\ number_of_wheels bp = 4.
Proof.
  destruct (get_random_blueprint sample_library 5) as [x|bp] eqn:E.
  - vm_compute in E. discriminate.
  - exists bp. split; [reflexivity|].
    apply (X15_ego_blueprint_is_a_car sample_library 5). exact E.
Defined.



End EgoBlueprints.

(** ** The image of [viz_events] *)

Module EventImage.

Import visualize_recording_viz.

Lemma axis_index_range (n i k : Z) :
  axis_index n i = Some k -> 0 <= k < n.
Proof.
  unfold axis_index.
  destruct ((0 <=? i) && (i <? n)) eqn:A.
  - intros H. injection H as <-. apply andb_true_iff in A as [A1 A2].
    apply Z.leb_le in A1. apply Z.ltb_lt in A2. lia.
  - destruct ((- n <=? i) && (i <? 0)) eqn:B; [|discriminate].
    intros H. injection H as <-. apply andb_true_iff in B as [B1 B2].
    apply Z.leb_le in B1. apply Z.ltb_lt in B2. lia.
Qed.

Lemma assign_spec (w h : Z) (events : list DVSEvent) :
  forall img img',
    assign w h img events = Some img' ->
    forall r c ch,
      img' r c ch = if painted w h events r c ch then 255 else img r c ch.
Proof.
  induction events as [|e es IH]; intros img img' H r c ch;
    cbn [assign] in H.
  - injection H as <-. reflexivity.
  - change (painted w h (e :: es) r c ch)
      with (match axis_index h (ev_y e), axis_index w (ev_x e) with
            | Some r', Some c' =>
                (r =? r') && (c =? c') && (ch =? channel_of e)
            | _, _ => false
            end || painted w h es r c ch).
    destruct (axis_index h (ev_y e)) as [r0|]; [|discriminate].
    destruct (axis_index w (ev_x e)) as [c0|]; [|discriminate].
    rewrite (IH _ _ H). unfold set_px.
    destruct (painted w h es r c ch); [rewrite orb_true_r; reflexivity|].
    rewrite orb_false_r. reflexivity.
Qed.

Lemma painted_paints (w h : Z) (events : list DVSEvent) (r c ch : Z) :
  painted w h events r c ch = true
  <-> exists e, In e events /\ paints w h e r c ch.
Proof.
  unfold painted, paints. rewrite existsb_exists. split.
  - intros (e & I & H). exists e. split; [exact I|].
    destruct (axis_index h (ev_y e)) as [r'|]; [|discriminate].
    destruct (axis_index w (ev_x e)) as [c'|]; [|discriminate].
    apply andb_true_iff in H as [H H3]. apply andb_true_iff in H as [H1 H2].
    apply Z.eqb_eq in H1, H2, H3. subst. auto.
  - intros (e & I & H1 & H2 & H3). exists e. split; [exact I|].
    rewrite H1, H2, H3, !Z.eqb_refl. reflexivity.
Qed.

(** X17. The image [viz_events] shows is black except where events fell: a
    pixel has 255 in channel 2 (red) exactly when a positive event has its
    coordinates, 255 in channel 0 (blue) exactly when a negative event has
    them, and nothing else than 0 anywhere else, the green channel
    included; every lit pixel lies inside the image. *)
Theorem X17_events_image
    (w h : Z) (events : list DVSEvent) (img : image) :
  dvs_img w h events = inr img ->
  forall r c ch,
    (img r c ch = 255 <-> exists e, In e events /\ paints w h e r c ch)
    /\ (img r c ch = 0 \/ img r c ch = 255)
    /\ (ch = 1 -> img r c ch = 0)
    /\ (img r c ch = 255 -> 0 <= r < h /\ 0 <= c < w /\ (ch = 0 \/ ch = 2)).
Proof.
  unfold dvs_img. intros H r c ch.
  destruct ((w <? 0) || (h <? 0)); [discriminate|].
  destruct (assign w h zeros events) as [img'|] eqn:A; [|discriminate].
  injection H as <-.
  pose proof (assign_spec _ _ _ _ _ A r c ch) as S. unfold zeros in S.
  pose proof (painted_paints w h events r c ch) as P.
  destruct (painted w h events r c ch); rewrite S.
  - destruct P as [P _]. destruct (P eq_refl) as (e & I & H1 & H2 & H3).
    split; [split; [intros _; exists e; repeat split; assumption|reflexivity]|].
    split; [auto|]. split.
    + intros ->. unfold channel_of in H3. destruct (ev_pol e); discriminate.
    + intros _. apply axis_index_range in H1, H2.
      split; [exact H1|]. split; [exact H2|].
      unfold channel_of in H3. destruct (ev_pol e); auto.
  - split; [split; [discriminate|]|].
    + intros E. destruct P as [_ P]. specialize (P E). discriminate.
    + split; [auto|]. split; [reflexivity|discriminate].
Qed.

(** X17 on two events, in an image of 4 columns and 2 rows. *)
Lemma X17_events_image_witness :
  exists img,
    dvs_img 4 2 sample_events = inr img
    /\ (img 1 3 2 = 255 <-> exists e, In e sample_events /\ paints 4 2 e 1 3 2).
Proof.
  destruct (dvs_img 4 2 sample_events) as [x|img] eqn:E.
  - vm_compute in E. discriminate.
  - exists img. split; [reflexivity|].
    apply (X17_events_image 4 2 sample_events img E).
Defined.

Lemma assign_some (w h : Z) (events : list DVSEvent) :
  forall img,
    (exists img', assign w h img events = Some img')
    <-> Forall (fun e => axis_index h (ev_y e) <> None
                         /\ axis_index w (ev_x e) <> None) events.
Proof.
  induction events as [|e es IH]; intros img; cbn [assign].
  - split; [constructor|eauto].
  - destruct (axis_index h (ev_y e)) as [r0|] eqn:R.
    + destruct (axis_index w (ev_x e)) as [c0|] eqn:C.
      * rewrite IH. split.
        -- intros F. constructor; [rewrite R, C; split; discriminate|exact F].
        -- intros F. inversion F. assumption.
      * split; [intros (i & H); discriminate|].
        intros F. inversion F as [|? ? (_ & H) ?]. rewrite C in H. contradiction.
    + split; [intros (i & H); discriminate|].
      intros F. inversion F as [|? ? (H & _) ?]. rewrite R in H. contradiction.
Qed.

Lemma assign_none (w h : Z) (events : list DVSEvent) :
  forall img,
    assign w h img events = None
    <-> exists e, In e events
                  /\ (axis_index h (ev_y e) = None
                      \/ axis_index w (ev_x e) = None).
Proof.
  induction events as [|e es IH]; intros img; cbn [assign].
  - split; [discriminate|]. intros (e & [] & _).
  - destruct (axis_index h (ev_y e)) as [r0|] eqn:R.
    + destruct (axis_index w (ev_x e)) as [c0|] eqn:C.
      * rewrite IH. split.
        -- intros (e' & I & H). exists e'. split; [right; exact I|exact H].
        -- intros (e' & [<-|I] & H).
           ++ rewrite R, C in H. destruct H; discriminate.
           ++ exists e'. auto.
      * split; [|reflexivity]. intros _. exists e. split; [left; reflexivity|auto].
    + split; [|reflexivity]. intros _. exists e. split; [left; reflexivity|auto].
Qed.

(** X18. [viz_events] raises [IndexError] as soon as one event lies outside
    the resolution given: for non-negative dimensions, an image is shown
    exactly when the coordinates of every event index the image. *)
Theorem X18_event_outside_the_image (w h : Z) (events : list DVSEvent) :
  0 <= w -> 0 <= h ->
  ((exists img, dvs_img w h events = inr img)
   <-> Forall (fun e => axis_index h (ev_y e) <> None
                        /\ axis_index w (ev_x e) <> None) events)
  /\ (dvs_img w h events = inl np_IndexError
      <-> exists e, In e events
                    /\ (axis_index h (ev_y e) = None
                        \/ axis_index w (ev_x e) = None)).
Proof.
  intros Hw Hh. unfold dvs_img.
  assert (D : (w <? 0) || (h <? 0) = false).
  { apply orb_false_iff. split; apply Z.ltb_ge; assumption. }
  rewrite D. pose proof (assign_some w h events zeros) as S.
  pose proof (assign_none w h events zeros) as N.
  destruct (assign w h zeros events) as [img|] eqn:A.
  - destruct S as [S _]. specialize (S (ex_intro _ img eq_refl)).
    split; [split; [intros _; exact S|eauto]|].
    split; [discriminate|].
    intros E. apply N in E. discriminate.
  - split.
    + split; [intros (i & H); discriminate|].
      intros F. apply S in F. destruct F. discriminate.
    + split; [|reflexivity]. intros _. apply N. reflexivity.
Qed.

(** X18 on two events and an image of 2 columns: the first event is out. *)
Lemma X18_event_outside_the_image_witness :
  dvs_img 2 2 sample_events = inl np_IndexError.
Proof.
  apply (X18_event_outside_the_image 2 2 sample_events); try lia.
  eexists. split; [left; reflexivity|]. right. reflexivity.
Defined.

End EventImage.

(** ** The batch of generate_dataset.py and the name of the archive *)

Module DatasetBatch.

Import generate_dataset.

(** *** [split('/')[-1]] *)

Lemma last_field_no_slash (s : String.string) :
  generate_sequence.has_slash s = false -> generate_sequence.last_field s = s.
Proof.
  destruct s as [|c s]; [reflexivity|]. cbn.
  destruct (Ascii.eqb c "/"); [discriminate|]. intros ->. reflexivity.
Qed.

Lemma last_field_clean (s : String.string) :
  generate_sequence.has_slash (generate_sequence.last_field s) = false.
Proof.
  induction s as [|c s IH]; [reflexivity|].
  cbn [generate_sequence.last_field].
  destruct (generate_sequence.has_slash s) eqn:H; [exact IH|].
  destruct (Ascii.eqb c "/") eqn:E; [exact H|].
  cbn. rewrite E. exact H.
Qed.

Lemma last_field_suffix (s : String.string) :
  exists pre,
    s = String.append pre (generate_sequence.last_field s)
    /\ (generate_sequence.has_slash s = true ->
        exists p, pre = String.append p "/").
Proof.
  induction s as [|c s IH]; [exists String.EmptyString; split;
                             [reflexivity|discriminate]|].
  cbn [generate_sequence.last_field generate_sequence.has_slash].
  destruct (generate_sequence.has_slash s) eqn:H.
  - destruct IH as (pre & E & P). destruct (P eq_refl) as (p & ->).
    exists (String.String c (String.append p "/")). split.
    + cbn. rewrite <- E. reflexivity.
    + intros _. exists (String.String c p). reflexivity.
  - destruct (Ascii.eqb c "/") eqn:E.
    + apply Ascii.eqb_eq in E. subst c.
      exists "/"%string. split; [reflexivity|].
      intros _. exists String.EmptyString. reflexivity.
    + exists String.EmptyString. split; [reflexivity|discriminate].
Qed.

Lemma last_field_after_slash (pre rest : String.string) :
  generate_sequence.has_slash rest = false ->
  generate_sequence.last_field
    (String.append pre (String.String "/" rest)) = rest.
Proof.
  intros H. induction pre as [|c pre IH].
  - cbn. rewrite H. reflexivity.
  - cbn [String.append generate_sequence.last_field].
    assert (S : generate_sequence.has_slash
                  (String.append pre (String.String "/" rest)) = true).
    { clear IH. induction pre as [|d pre IH']; cbn; [reflexivity|].
      rewrite IH'. destruct (Ascii.eqb d "/"); reflexivity. }
    rewrite S. exact IH.
Qed.

Lemma has_slash_append (a b : String.string) :
  generate_sequence.has_slash (String.append a b)
  = generate_sequence.has_slash a || generate_sequence.has_slash b.
Proof.
  induction a as [|c a IH]; [reflexivity|]. cbn.
  destruct (Ascii.eqb c "/"); [reflexivity|exact IH].
Qed.

(** X19. [split('/')[-1]] as used for the index row: the field returned
    holds no slash and ends the path; it is the whole path when the path
    holds no slash, and otherwise what follows its last slash. *)
Theorem X19_last_field_of_a_path (s : String.string) :
  generate_sequence.has_slash (generate_sequence.last_field s) = false
  /\ (exists pre,
        s = String.append pre (generate_sequence.last_field s)
        /\ (generate_sequence.has_slash s = true ->
            exists p, pre = String.append p "/"))
  /\ (generate_sequence.has_slash s = false ->
      generate_sequence.last_field s = s).
Proof.
  split; [apply last_field_clean|].
  split; [apply last_field_suffix|apply last_field_no_slash].
Qed.

(** X19 on a file name without directory. *)
Lemma X19_last_field_of_a_path_witness :
  generate_sequence.last_field "out.npz"%string = "out.npz"%string.
Proof.
  apply (X19_last_field_of_a_path "out.npz"%string). reflexivity.
Defined.

(** X20. The two scripts agree on the name of an archive: for an output
    name without slash, the row that the session started by the batch
    appends to the index file names the archive [out_name.npz], whatever
    the output folder. *)
Theorem X20_index_row_names_the_sequence
    (args : Args) (name : String.string) :
  generate_sequence.has_slash name = false ->
  generate_sequence.last_field (output_path args name)
  = String.append name ".npz".
Proof.
  intros H. unfold output_path. cbn [String.append].
  apply last_field_after_slash.
  rewrite has_slash_append, H. reflexivity.
Qed.

(** X20 for the first row of the sample seeds file. *)
Lemma X20_index_row_names_the_sequence_witness :
  generate_sequence.last_field (output_path seeds_args "a"%string)
  = "a.npz"%string.
Proof.
  apply (X20_index_row_names_the_sequence seeds_args "a"%string). reflexivity.
Defined.

(** *** The loop over the sequences *)

Lemma sequence_of_map (args : Args) (h : Host)
    (csv_lines : list (list String.string)) (i : nat) (q : Sequence) :
  sequence_of args h csv_lines i = inr q -> In (map q) maps.
Proof.
  unfold sequence_of. destruct (String.eqb (seeds args) "").
  - destruct (generate_sequence.random_choice maps (draw_map h i)) as [x|m] eqn:R;
      [discriminate|].
    intros H. injection H as <-. cbn [map].
    apply (MainRun.random_choice_in _ _ _ R).
  - destruct (nth_error csv_lines i) as [l|]; [|discriminate].
    destruct l as [|a [|b [|c [|d [|e [|f l]]]]]]; try discriminate.
    destruct (existsb (String.eqb c) maps) eqn:E; [|discriminate].
    intros H. injection H as <-. cbn [map].
    apply existsb_exists in E as (m & I & M).
    apply String.eqb_eq in M. subst. exact I.
Qed.

Lemma batch_launched (args : Args) (h : Host)
    (csv_lines : list (list String.string)) :
  forall n i cmds res,
    batch args h csv_lines n i = (cmds, res) ->
    Forall (launched args h csv_lines i (i + n)) cmds
    /\ (length cmds <= n)%nat.
Proof.
  induction n as [|n IH]; intros i cmds res H; cbn [batch] in H.
  - injection H as <- <-. split; [apply Forall_nil|cbn; lia].
  - destruct (sequence_of args h csv_lines i) as [x|q] eqn:Q.
    { injection H as <- <-. split; [apply Forall_nil|cbn; lia]. }
    assert (W : forall l, Forall (launched args h csv_lines (S i) (S i + n)) l ->
                          Forall (launched args h csv_lines i (i + S n)) l).
    { intros l F. eapply Forall_impl; [|exact F].
      intros c (j & q' & Hj & R). exists j, q'. split; [lia|exact R]. }
    destruct (exists_ h i (output_path args (out_name q))) eqn:X.
    { destruct (IH _ _ _ H) as (F & L). split; [apply W; exact F|lia]. }
    assert (L0 : launched args h csv_lines i (i + S n) (command args q)).
    { exists i, q. split; [lia|]. split; [exact Q|]. split; [reflexivity|].
      split; [apply (sequence_of_map _ _ _ _ _ Q)|exact X]. }
    destruct (run h i (command args q)).
    + destruct (batch args h csv_lines n (S i)) as [l x] eqn:B.
      injection H as <- <-. destruct (IH _ _ _ B) as (F & L).
      split; [constructor; [exact L0|apply W; exact F]|cbn; lia].
    + injection H as <- <-. split; [repeat constructor; exact L0|cbn; lia].
Qed.

(** X21. The batch launches a sequence only for one of the eight maps of
    its list and only when the output file does not exist yet; it launches
    at most one command per sequence asked for, each made of the fields of
    its sequence, always in Pandora mode and with compression. *)
Theorem X21_batch_launches
    (args : Args) (h : Host) (cmds : list (list String.string))
    (res : option error) (cmd : list String.string) :
  main args h = (cmds, res) ->
  (length cmds <= nb_seq_to_generate args h)%nat
  /\ (In cmd cmds ->
      In (map_of cmd) maps
      /\ (exists j, exists_ h j (output_of cmd) = false)
      /\ nth 6 cmd ""%string = "--lidar-is-pandora"%string
      /\ nth 15 cmd ""%string = "--compressed"%string
      /\ length cmd = 16%nat).
Proof.
  unfold main, nb_seq_to_generate, kept_rows. intros H.
  assert (B : exists lines,
             batch args h lines (if String.eqb (seeds args) ""
                                 then Z.to_nat (nb_seq args)
                                 else length (kept_rows h)) 0 = (cmds, res)).
  { unfold kept_rows. destruct (String.eqb (seeds args) ""); eauto. }
  destruct B as (lines & B). destruct (batch_launched _ _ _ _ _ _ _ B) as (F & L).
  split; [exact L|]. intros I. rewrite Forall_forall in F.
  destruct (F cmd I) as (j & q & _ & _ & -> & M & X).
  repeat split; try assumption. exists j. exact X.
Qed.

(** X21 on the sample seeds file. *)
Lemma X21_batch_launches_witness :
  (length (fst (main seeds_args sample_host)) <= 3)%nat.
Proof.
  destruct (main seeds_args sample_host) as [cmds res] eqn:E.
  apply (X21_batch_launches seeds_args sample_host cmds res [] E).
Defined.

Lemma sequence_of_error (args : Args) (h : Host)
    (csv_lines : list (list String.string)) (i : nat) (x : error) :
  sequence_of args h csv_lines i = inl x ->
  match x with
  | CalledProcessError _ => False
  | UnknownMap m =>
      ~ In m maps
      /\ exists a b d e, nth_error csv_lines i = Some [a; b; m; d; e]
  | ValueError =>
      exists l, nth_error csv_lines i = Some l /\ length l <> 5%nat
  | IndexError_ => True
  end.
Proof.
  unfold sequence_of. destruct (String.eqb (seeds args) "").
  - destruct (generate_sequence.random_choice maps (draw_map h i));
      [|discriminate].
    intros H. injection H as <-. exact I.
  - destruct (nth_error csv_lines i) as [l|];
      [|intros H; injection H as <-; exact I].
    destruct l as [|a [|b [|c [|d [|e [|f l]]]]]];
      try (intros H; injection H as <-; eexists; split;
           [reflexivity|cbn; lia]).
    destruct (existsb (String.eqb c) maps) eqn:E; [discriminate|].
    intros H. injection H as <-. split; [|eauto].
    intros M. assert (T : existsb (String.eqb c) maps = true).
    { apply existsb_exists. exists c. split; [exact M|apply String.eqb_refl]. }
    congruence.
Qed.

Lemma batch_stops (args : Args) (h : Host)
    (csv_lines : list (list String.string)) :
  forall n i cmds res,
    batch args h csv_lines n i = (cmds, res) ->
    match res with
    | Some (CalledProcessError c) =>
        exists pre, cmds = pre ++ [c] /\ Forall (succeeded h) pre /\ failed_ h c
    | _ => Forall (succeeded h) cmds
    end.
Proof.
  induction n as [|n IH]; intros i cmds res H; cbn [batch] in H.
  - injection H as <- <-. constructor.
  - destruct (sequence_of args h csv_lines i) as [x|q] eqn:Q.
    { injection H as <- <-. apply sequence_of_error in Q.
      destruct x; try constructor. destruct Q. }
    destruct (exists_ h i (output_path args (out_name q))).
    { apply (IH _ _ _ H). }
    destruct (run h i (command args q)) eqn:R.
    + destruct (batch args h csv_lines n (S i)) as [l x] eqn:B.
      injection H as <- <-. specialize (IH _ _ _ B).
      assert (S0 : succeeded h (command args q)) by (exists i; exact R).
      destruct x as [[| | m | c]|]; try (constructor; assumption).
      destruct IH as (pre & -> & F & N).
      exists (command args q :: pre). split; [reflexivity|].
      split; [constructor; assumption|exact N].
    + injection H as <- <-. exists []. split; [reflexivity|].
      split; [constructor|exists i; exact R].
Qed.

(** X22. The batch stops at the first sequence that fails: when a command
    returns a non-zero status the exception names it, it is the last
    command launched and all the commands before it succeeded; when the
    batch ends for another reason, a row of the seeds file that is not
    five fields or that names a map outside the list, or the end of the
    sequences, every command launched succeeded.  The rows are checked one
    by one, as their turn comes, not beforehand. *)
Theorem X22_batch_stops_at_first_failure
    (args : Args) (h : Host) (cmds : list (list String.string))
    (res : option error) :
  main args h = (cmds, res) ->
  match res with
  | Some (CalledProcessError c) =>
      exists pre, cmds = pre ++ [c] /\ Forall (succeeded h) pre /\ failed_ h c
  | _ => Forall (succeeded h) cmds
  end.
Proof.
  unfold main. destruct (String.eqb (seeds args) ""); apply batch_stops.
Qed.

(** X22 on the sample seeds file, whose second command fails. *)
Lemma X22_batch_stops_at_first_failure_witness :
  exists c pre,
    main seeds_args sample_host = (pre ++ [c], Some (CalledProcessError c))
    /\ failed_ sample_host c.
Proof.
  destruct (main seeds_args sample_host) as [cmds res] eqn:E.
  pose proof (X22_batch_stops_at_first_failure seeds_args sample_host cmds res E)
    as H.
  destruct res as [[| | m | c]|];
    try (vm_compute in E; discriminate).
  destruct H as (pre & -> & _ & N).
  exists c, pre. split; [reflexivity|exact N].
Defined.

Lemma batch_skips (args : Args) (h : Host)
    (csv_lines : list (list String.string)) :
  (forall j f, exists_ h j f = true) ->
  forall n i, fst (batch args h csv_lines n i) = [].
Proof.
  intros X. induction n as [|n IH]; intros i; cbn [batch]; [reflexivity|].
  destruct (sequence_of args h csv_lines i) as [x|q]; [reflexivity|].
  rewrite X. apply IH.
Qed.

(** X23. Running the batch again over outputs that all exist launches
    nothing; without a seeds file it also raises nothing. *)
Theorem X23_batch_skips_existing_outputs (args : Args) (h : Host) :
  (forall j f, exists_ h j f = true) ->
  fst (main args h) = []
  /\ (seeds args = ""%string -> main args h = ([], None)).
Proof.
  intros X. split.
  - unfold main. destruct (String.eqb (seeds args) ""); apply batch_skips; exact X.
  - intros E. unfold main. rewrite E. cbn [String.eqb].
    generalize 0%nat. induction (Z.to_nat (nb_seq args)) as [|n IH];
      intros i; cbn [batch]; [reflexivity|].
    unfold sequence_of. rewrite E. cbn [String.eqb].
    destruct (Spawning.random_choice_some maps (draw_map h i) ltac:(discriminate))
      as (m & ->).
    rewrite X. apply IH.
Qed.

(** X23 on the machine where every file exists. *)
Lemma X23_batch_skips_existing_outputs_witness :
  main random_args full_host = ([], None).
Proof.
  apply (X23_batch_skips_existing_outputs random_args full_host).
  - reflexivity.
  - reflexivity.
Defined.

End DatasetBatch.
